(** * musicdb: the versioned store of music tracks and its listing layer

    A shallow embedding of [internal/data/models.go] and [cmd/api/musics.go]
    together with the table declared by [migrations/000004] and
    [migrations/000005].  The relational backend is an explicit state: the
    [musics] table is a finite map from the primary key to the row, and
    every statement the Go code sends is a function on that state. *)

From Stdlib Require Import ZArith Bool Lia SpecFloat Ascii.
From stdpp Require Import base option list sorting strings gmap.

#[local] Open Scope Z_scope.
#[local] Set Warnings "-clear-no-such-hyp".

(** ** Errors and results *)

(** [ErrRecordNotFound] and [ErrEditConflict] are the two sentinel errors of
    package [data]; [ErrNoRows] is [sql.ErrNoRows]; [ErrStorage] stands for
    every other error that [database/sql] or the driver returns. *)
Inductive error : Type :=
| ErrRecordNotFound
| ErrEditConflict
| ErrNoRows
| ErrStorage (msg : string).

#[global] Instance error_eq_dec : EqDecision error.
Proof. solve_decision. Defined.

Inductive result (A : Type) : Type :=
| Ok (a : A)
| Err (e : error).
Arguments Ok {A} a.
Arguments Err {A} e.

(** ** Go values *)

Definition fits_int16 (z : Z) : bool := (-32768 <=? z) && (z <=? 32767).
Definition max_int32 : Z := 2147483647.
Definition fits_int32 (z : Z) : bool := (-2147483648 <=? z) && (z <=? max_int32).

(** A Go slice is [nil] or a (possibly empty) sequence; [ValidateMovie] tells
    the two apart, so the model does too: [None] is the nil slice. *)
Definition slice (A : Type) : Type := option (list A).
Definition len {A} (s : slice A) : Z := Z.of_nat (length (default [] s)).
Definition append {A} (s : slice A) (x : A) : slice A := Some (default [] s ++ [x]).

(** [sql.NullString] *)
Record NullString : Type := mkNullString { ns_String : string; ns_Valid : bool }.

(** [data.Music].  [Duration] is an [int16] and [Version] an [int32]; no Go
    arithmetic is done on either, they are only decoded, compared and
    scanned, and the scan checks the range.  [Popularity] is a [float32]. *)
Record Music : Type := mkMusic {
  Id : Z;
  Title : string;
  Duration : Z;
  Popularity : spec_float;
  Genres : slice string;
  CreatedAt : Z;
  Version : Z
}.

(** [var ms Music]: the zero value. *)
Definition zero_Music : Music := mkMusic 0 "" 0 (S754_zero false) None 0 0.

Definition set_Genres (g : slice string) (m : Music) : Music :=
  mkMusic (Id m) (Title m) (Duration m) (Popularity m) g (CreatedAt m) (Version m).
Definition set_Version (v : Z) (m : Music) : Music :=
  mkMusic (Id m) (Title m) (Duration m) (Popularity m) (Genres m) (CreatedAt m) v.

(** [func (m *Music) SanitizeGenres(genres []sql.NullString)]: the loop
    appends every valid entry to [m.Genres], in order. *)
Definition SanitizeGenres (m : Music) (genres : list NullString) : Music :=
  fold_left (fun m g => if negb (ns_Valid g) then m
                        else set_Genres (append (Genres m) (ns_String g)) m)
            genres m.

(** ** The relational backend *)

(** A row of [musics] without its key.  [genres] is [text[] NOT NULL]: the
    array is there, its elements may be NULL.  [popularity] is [numeric]; the
    driver writes the decimal form of the [float32] and parses it back, which
    is the identity on every [float32] value but one: [numeric] has a single
    zero, so the negative zero comes back as zero ([to_numeric] below is
    what a write stores).  Every Go string is taken to be text that the
    backend stores as it is, and every [float32] a value that [numeric]
    holds. *)
Record Row : Type := mkRow {
  col_title : string;
  col_duration : Z;
  col_genres : list (option string);
  col_popularity : spec_float;
  col_created_at : Z;
  col_version : Z
}.

(** What [numeric] keeps of a [float32] that is written to it: the value
    itself, and zero for the negative zero. *)
Definition to_numeric (p : spec_float) : spec_float :=
  match p with
  | S754_zero _ => S754_zero false
  | _ => p
  end.

(** The statements of [MusicsModel], as the backend sees them. *)
Inductive Stmt : Type :=
| StInsert
| StSelect (id : Z)
| StSelectAll
| StUpdate (id version : Z)
| StDelete (id : Z).

(** The backend: the table, the [bigserial] sequence behind [id], the clock
    behind [NOW()], the schedule of the failures that the table does not
    decide (lost connection, timeout, a parameter that the server refuses to
    take, ...: one entry per statement to come, [None] when that statement
    goes through) and the journal of the statements received so far. *)
Record DB : Type := mkDB {
  musics : gmap Z Row;
  musics_id_seq : Z;
  now : Z;
  faults : list (option string);
  journal : list Stmt
}.

Definition pending_fault (db : DB) : option string := mjoin (head (faults db)).

Definition set_musics (t : gmap Z Row) (db : DB) : DB :=
  mkDB t (musics_id_seq db) (now db) (faults db) (journal db).

(** Every call of [m.DB.QueryRow], [m.DB.Exec] or [m.DB.QueryContext] reaches
    the backend: the statement is journalled and the next entry of the fault
    schedule is consumed. *)
Definition submit (s : Stmt) (db : DB) : option string * DB :=
  (pending_fault db,
   mkDB (musics db) (musics_id_seq db) (now db) (tail (faults db)) (journal db ++ [s])).

(** [musics_duration_check]: [CHECK (duration >= 0)]. *)
Definition musics_duration_check (r : Row) : bool := 0 <=? col_duration r.

(** [genres_length_check]: [CHECK (array_length(genres, 1) BETWEEN 1 AND 8)].
    [array_length] of an empty array is NULL and a check whose value is NULL
    is satisfied, so the empty array passes. *)
Definition genres_length_check (r : Row) : bool :=
  match col_genres r with
  | [] => true
  | _ :: _ => (1 <=? Z.of_nat (length (col_genres r))) && (Z.of_nat (length (col_genres r)) <=? 8)
  end.

(** What the table requires of a row that is written: both checks and the
    range of the [integer] columns. *)
Definition row_accepted (r : Row) : bool :=
  musics_duration_check r && genres_length_check r && fits_int32 (col_version r).

(** [pq.Array(genres)] on the way in: a nil slice is sent as NULL. *)
Definition pq_Array (g : slice string) : option (list (option string)) :=
  map Some <$> g.

(** [pq.Array(&genres)] on the way out, into [[]sql.NullString]. *)
Definition scan_genres (g : list (option string)) : list NullString :=
  map (fun o => match o with
                | Some s => mkNullString s true
                | None => mkNullString "" false
                end) g.

(** [Scan] of one row of [SELECT *] into a [Music]: the [integer] columns are
    converted to [int16] and [int32], an error when out of range. *)
Definition scan_row (id : Z) (r : Row) : result (Music * list NullString) :=
  if negb (fits_int16 (col_duration r)) then
    Err (ErrStorage "sql: Scan error on column duration: value out of range")
  else if negb (fits_int32 (col_version r)) then
    Err (ErrStorage "sql: Scan error on column version: value out of range")
  else
    Ok (mkMusic id (col_title r) (col_duration r) (col_popularity r) None
                (col_created_at r) (col_version r),
        scan_genres (col_genres r)).

(** ** MusicsModel *)

(** [INSERT INTO musics (title, duration, genres, popularity) VALUES ...
    RETURNING id, created_at, version].  The sequence advances whether or not
    the row is accepted. *)
Definition exec_insert (title : string) (duration : Z)
    (genres : option (list (option string))) (popularity : spec_float)
    (db : DB) : result (Z * Z * Z) * DB :=
  let (flt, db1) := submit StInsert db in
  match flt with
  | Some e => (Err (ErrStorage e), db1)
  | None =>
    let id := musics_id_seq db1 + 1 in
    let db2 := mkDB (musics db1) id (now db1) (faults db1) (journal db1) in
    match genres with
    | None => (Err (ErrStorage "pq: null value in column genres violates not-null constraint"), db2)
    | Some gs =>
      let r := mkRow title duration gs (to_numeric popularity) (now db2) 1 in
      if negb (row_accepted r) then
        (Err (ErrStorage "pq: new row for relation musics violates check constraint"), db2)
      else match musics db2 !! id with
           | Some _ => (Err (ErrStorage "pq: duplicate key value violates unique constraint"), db2)
           | None => (Ok (id, now db2, 1), set_musics (<[id := r]> (musics db2)) db2)
           end
    end
  end.

(** [func (m MusicsModel) Insert(mv *Music) error]: the record is written in
    place, so the model returns it. *)
Definition Insert (mv : Music) (db : DB) : option error * Music * DB :=
  let (res, db') := exec_insert (Title mv) (Duration mv) (pq_Array (Genres mv)) (Popularity mv) db in
  match res with
  | Ok (id, created, version) =>
      (None, mkMusic id (Title mv) (Duration mv) (Popularity mv) (Genres mv) created version, db')
  | Err e => (Some e, mv, db')
  end.

(** [SELECT * FROM musics WHERE id = $1], read with [QueryRow(...).Scan]:
    [sql.ErrNoRows] when no row has the key. *)
Definition exec_select (id : Z) (db : DB) : result (Music * list NullString) * DB :=
  let (flt, db1) := submit (StSelect id) db in
  match flt with
  | Some e => (Err (ErrStorage e), db1)
  | None =>
    match musics db1 !! id with
    | None => (Err ErrNoRows, db1)
    | Some r => (scan_row id r, db1)
    end
  end.

(** [func (m MusicsModel) Get(id int64)], returning the record or an error *)
Definition Get (id : Z) (db : DB) : result Music * DB :=
  if id <? 1 then (Err ErrRecordNotFound, db)
  else
    let (res, db') := exec_select id db in
    match res with
    | Err ErrNoRows => (Err ErrRecordNotFound, db')
    | Err e => (Err e, db')
    | Ok (ms, genres) => (Ok (SanitizeGenres ms genres), db')
    end.

(** [UPDATE musics SET title = $2, duration = $3, popularity = $4,
    genres = $5, version = version + 1 WHERE id = $1 AND version = $6
    RETURNING version], read with [QueryRow(...).Scan(&ms.Version)]. *)
Definition exec_update (id : Z) (title : string) (duration : Z)
    (popularity : spec_float) (genres : option (list (option string)))
    (version : Z) (db : DB) : result Z * DB :=
  let (flt, db1) := submit (StUpdate id version) db in
  match flt with
  | Some e => (Err (ErrStorage e), db1)
  | None =>
    match musics db1 !! id with
    | None => (Err ErrNoRows, db1)
    | Some r =>
      if negb (col_version r =? version) then (Err ErrNoRows, db1)
      else match genres with
           | None => (Err (ErrStorage "pq: null value in column genres violates not-null constraint"), db1)
           | Some gs =>
             let r' := mkRow title duration gs (to_numeric popularity)
                             (col_created_at r) (col_version r + 1) in
             if negb (row_accepted r') then
               (Err (ErrStorage "pq: new row for relation musics is out of range or violates check constraint"), db1)
             else (Ok (col_version r'), set_musics (<[id := r']> (musics db1)) db1)
           end
    end
  end.

(** [func (m MusicsModel) Update(ms *Music) error] *)
Definition Update (ms : Music) (db : DB) : option error * Music * DB :=
  let (res, db') := exec_update (Id ms) (Title ms) (Duration ms) (Popularity ms)
                                (pq_Array (Genres ms)) (Version ms) db in
  match res with
  | Ok v => (None, set_Version v ms, db')
  | Err ErrNoRows => (Some ErrEditConflict, ms, db')
  | Err e => (Some e, ms, db')
  end.

(** [DELETE FROM musics WHERE id = $1], sent with [Exec]: the number of rows
    affected. *)
Definition exec_delete (id : Z) (db : DB) : result Z * DB :=
  let (flt, db1) := submit (StDelete id) db in
  match flt with
  | Some e => (Err (ErrStorage e), db1)
  | None =>
    match musics db1 !! id with
    | None => (Ok 0, db1)
    | Some _ => (Ok 1, set_musics (delete id (musics db1)) db1)
    end
  end.

(** [func (m MusicsModel) Delete(id int64) error].  [RowsAffected] of the
    driver's result does not fail. *)
Definition Delete (id : Z) (db : DB) : option error * DB :=
  if id <? 1 then (Some ErrRecordNotFound, db)
  else
    let (res, db') := exec_delete id db in
    match res with
    | Err e => (Some e, db')
    | Ok rowsAffected =>
        if rowsAffected =? 0 then (Some ErrRecordNotFound, db') else (None, db')
    end.

(** ** Package validator *)

Module validator.

(** Modelled from the spec: package [internal/validator] is not among the
    sources.  The spec describes a validator that collects errors into a
    mapping from field name to message as the checks run, and that is valid
    when the mapping is empty; a field that already has a message keeps it. *)
Record Validator : Type := mkValidator { Errors : gmap string string }.

(** Modelled from the spec: [validator.New], a validator without errors. *)
Definition New : Validator := mkValidator ∅.

(** Modelled from the spec: [Valid], no error was collected. *)
Definition Valid (v : Validator) : bool := bool_decide (size (Errors v) = 0%nat).

(** Modelled from the spec: [AddError], one message for a field; a field
    that has a message keeps it. *)
Definition AddError (v : Validator) (key message : string) : Validator :=
  match Errors v !! key with
  | Some _ => v
  | None => mkValidator (<[key := message]> (Errors v))
  end.

(** Modelled from the spec: [Check], an error on the field when the
    condition does not hold. *)
Definition Check (v : Validator) (ok : bool) (key message : string) : Validator :=
  if ok then v else AddError v key message.

(** Modelled from the spec: [validator.Unique], no duplicate values, compared
    exactly (case-sensitive). *)
Definition Unique (values : slice string) : bool :=
  bool_decide (NoDup (default [] values)).

(** Modelled from the spec: [PermittedValue], membership of a value in an
    allow-list. *)
Definition PermittedValue (value : string) (permitted : list string) : bool :=
  bool_decide (value ∈ permitted).

End validator.

Import validator.

Definition float_zero : spec_float := S754_zero false.

Definition is_nil {A} (s : slice A) : bool :=
  match s with None => true | Some _ => false end.

(** [func ValidateMovie(v *validator.Validator, movie *Music)] *)
Definition ValidateMovie (v : Validator) (movie : Music) : Validator :=
  let v := Check v (negb (bool_decide (Title movie = ""))) "title" "must be provided" in
  let v := Check v (Z.of_nat (String.length (Title movie)) <=? 500) "title" "must not be more than 500 bytes long" in
  let v := Check v (negb (Duration movie =? 0)) "duration" "must be provided" in
  let v := Check v (Duration movie >? 0) "duration" "must be a positive integer" in
  let v := Check v (negb (SFeqb (Popularity movie) float_zero)) "popularity" "must be provided" in
  let v := Check v (SFltb float_zero (Popularity movie)) "popularity" "must be a positive number" in
  let v := Check v (negb (is_nil (Genres movie))) "genres" "must be provided" in
  let v := Check v (len (Genres movie) >=? 1) "genres" "must contain at least 1 genre" in
  let v := Check v (len (Genres movie) <=? 5) "genres" "must not contain more than 5 genres" in
  Check v (Unique (Genres movie)) "genres" "must not contain duplicate values".

(** ** The handlers of [cmd/api/musics.go] *)

(** Modelled from the spec: [Metadata] is declared outside the sources; its
    fields are the five the spec lists. *)
Record Metadata : Type := mkMetadata {
  current_page : Z;
  page_size : Z;
  first_page : Z;
  last_page : Z;
  total_records : Z
}.

(** What a handler answers.  The helpers that write the answer
    ([notFoundResponse], [writeJSON], ...) are outside the sources; each
    constructor names the helper the handler calls, and [writeJSON] is taken
    to succeed. *)
Inductive Response : Type :=
| notFoundResponse
| badRequestResponse
| serverErrorResponse (err : error)
| failedValidationResponse (errors : gmap string string)
| StatusCreated (ms : Music)
| StatusOK (ms : Music)
| StatusOK_deleted
| StatusOK_list (musics : list Music) (metadata : Metadata).

(** The body of a create request after [readJSON]. *)
Record CreateInput : Type := mkCreateInput {
  ci_Title : string;
  ci_Duration : Z;
  ci_Genres : slice string;
  ci_Popularity : spec_float
}.

(** [createMusicHandler]; [body] is what [readJSON] decoded, [None] when it
    failed. *)
Definition createMusicHandler (body : option CreateInput) (db : DB) : Response * DB :=
  match body with
  | None => (badRequestResponse, db)
  | Some input =>
    let ms := mkMusic 0 (ci_Title input) (ci_Duration input) (ci_Popularity input)
                      (ci_Genres input) 0 0 in
    let v := ValidateMovie New ms in
    if negb (Valid v) then (failedValidationResponse (Errors v), db)
    else
      let '(err, ms', db') := Insert ms db in
      match err with
      | Some e => (serverErrorResponse e, db')
      | None => (StatusCreated ms', db')
      end
  end.

(** [showMusicHandler]; [idParam] is what [readIDParam] returned, [None] when
    it failed. *)
Definition showMusicHandler (idParam : option Z) (db : DB) : Response * DB :=
  match idParam with
  | None => (notFoundResponse, db)
  | Some id =>
    let (res, db') := Get id db in
    match res with
    | Err ErrRecordNotFound => (notFoundResponse, db')
    | Err e => (serverErrorResponse e, db')
    | Ok music => (StatusOK music, db')
    end
  end.

(** The body of an update request after [readJSON]: the struct has these
    four fields and no other, each absent ([nil]) or present. *)
Record UpdateInput : Type := mkUpdateInput {
  ui_Title : option string;
  ui_Duration : option Z;
  ui_Genres : slice string;
  ui_Popularity : option spec_float
}.

(** The four conditional assignments of [updateMusicHandler]. *)
Definition merge_input (input : UpdateInput) (music : Music) : Music :=
  mkMusic (Id music)
          (default (Title music) (ui_Title input))
          (default (Duration music) (ui_Duration input))
          (default (Popularity music) (ui_Popularity input))
          (match ui_Genres input with Some g => Some g | None => Genres music end)
          (CreatedAt music)
          (Version music).

(** [updateMusicHandler]: the record is read with [Get], the body is merged
    into it, the result is validated and handed to [Update]; every error of
    [Update] goes to [serverErrorResponse]. *)
Definition updateMusicHandler (idParam : option Z) (body : option UpdateInput)
    (db : DB) : Response * DB :=
  match idParam with
  | None => (notFoundResponse, db)
  | Some id =>
    let (res, db1) := Get id db in
    match res with
    | Err ErrRecordNotFound => (notFoundResponse, db1)
    | Err e => (serverErrorResponse e, db1)
    | Ok music =>
      match body with
      | None => (badRequestResponse, db1)
      | Some input =>
        let music := merge_input input music in
        let v := ValidateMovie New music in
        if negb (Valid v) then (failedValidationResponse (Errors v), db1)
        else
          let '(err, music', db2) := Update music db1 in
          match err with
          | Some e => (serverErrorResponse e, db2)
          | None => (StatusOK music', db2)
          end
      end
    end
  end.

(** [deleteMusicHandler] *)
Definition deleteMusicHandler (idParam : option Z) (db : DB) : Response * DB :=
  match idParam with
  | None => (notFoundResponse, db)
  | Some id =>
    let (err, db') := Delete id db in
    match err with
    | Some ErrRecordNotFound => (notFoundResponse, db')
    | Some e => (serverErrorResponse e, db')
    | None => (StatusOK_deleted, db')
    end
  end.

(** ** Filters and pagination metadata *)

(** Modelled from the spec: the [Filters] struct and its methods are outside
    the sources; the handler sets the four fields below. *)
Record Filters : Type := mkFilters {
  Page : Z;
  PageSize : Z;
  Sort : string;
  SortSafeList : list string
}.

(** Modelled from the spec: [ValidateFilters] is outside the sources.  [page]
    must be at least 1, [page_size] between 1 and 100, and [sort] a member of
    the allow-list. *)
Definition ValidateFilters (v : Validator) (f : Filters) : Validator :=
  let v := Check v (Page f >? 0) "page" "must be greater than zero" in
  let v := Check v (PageSize f >? 0) "page_size" "must be greater than zero" in
  let v := Check v (PageSize f <=? 100) "page_size" "must be a maximum of 100" in
  Check v (PermittedValue (Sort f) (SortSafeList f)) "sort" "invalid sort value".

Definition has_minus (s : string) : bool :=
  match s with
  | String "-"%char _ => true
  | _ => false
  end.

(** Modelled from the spec: [sortColumn] is outside the sources.  The column
    is the sort key without its leading [-]. *)
Definition sortColumn (f : Filters) : string :=
  match Sort f with
  | String "-"%char rest => rest
  | s => s
  end.

(** Modelled from the spec: [sortDirection] is outside the sources.  A leading
    [-] means descending, its absence ascending. *)
Definition sortDirection (f : Filters) : string :=
  if has_minus (Sort f) then "DESC" else "ASC".

(** Modelled from the spec: [limit] is outside the sources: [LIMIT
    page_size]. *)
Definition limit (f : Filters) : Z := PageSize f.

(** Modelled from the spec: [offset] is outside the sources: [OFFSET
    (page-1)*page_size]. *)
Definition offset (f : Filters) : Z := (Page f - 1) * PageSize f.

(** The ceiling of [a / b]; [Z.div] rounds down. *)
Definition ceil_div (a b : Z) : Z := - ((- a) / b).

(** Modelled from the spec: [calculateMetadata] is outside the sources.  With
    no record, the all-zero metadata; otherwise the page asked for, the page
    size, first page 1, last page the ceiling of [total_records / page_size],
    and the total. *)
Definition calculateMetadata (totalRecords page pageSize : Z) : Metadata :=
  if totalRecords =? 0 then mkMetadata 0 0 0 0 0
  else mkMetadata page pageSize 1 (ceil_div totalRecords pageSize) totalRecords.

(** ** The listing query *)

(** The columns of [musics], which [ORDER BY] may name. *)
Inductive Column : Type :=
| c_id | c_title | c_duration | c_genres | c_popularity | c_created_at | c_version.

Inductive Direction : Type := ASC | DESC.

Definition column_of_name (s : string) : option Column :=
  if bool_decide (s = "id") then Some c_id
  else if bool_decide (s = "title") then Some c_title
  else if bool_decide (s = "duration") then Some c_duration
  else if bool_decide (s = "genres") then Some c_genres
  else if bool_decide (s = "popularity") then Some c_popularity
  else if bool_decide (s = "created_at") then Some c_created_at
  else if bool_decide (s = "version") then Some c_version
  else None.

Definition direction_of_name (s : string) : option Direction :=
  if bool_decide (s = "ASC") then Some ASC
  else if bool_decide (s = "DESC") then Some DESC
  else None.

(** The order of [numeric]: NaN is equal to itself and above every other
    value; the other values compare as numbers. *)
Definition numeric_compare (a b : spec_float) : comparison :=
  match a, b with
  | S754_nan, S754_nan => Eq
  | S754_nan, _ => Gt
  | _, S754_nan => Lt
  | _, _ => default Eq (SFcompare a b)
  end.

(** The order of [text[]]: element by element, a NULL element above every
    string, then the shorter array first.  Strings compare byte by byte (the
    collation of the database is taken to be [C]). *)
Definition element_compare (a b : option string) : comparison :=
  match a, b with
  | None, None => Eq
  | None, Some _ => Gt
  | Some _, None => Lt
  | Some x, Some y => String.compare x y
  end.

Fixpoint array_compare (a b : list (option string)) : comparison :=
  match a, b with
  | [], [] => Eq
  | [], _ :: _ => Lt
  | _ :: _, [] => Gt
  | x :: a', y :: b' =>
    match element_compare x y with
    | Eq => array_compare a' b'
    | o => o
    end
  end.

Definition column_compare (c : Column) (a b : Z * Row) : comparison :=
  match c with
  | c_id => Z.compare a.1 b.1
  | c_title => String.compare (col_title a.2) (col_title b.2)
  | c_duration => Z.compare (col_duration a.2) (col_duration b.2)
  | c_genres => array_compare (col_genres a.2) (col_genres b.2)
  | c_popularity => numeric_compare (col_popularity a.2) (col_popularity b.2)
  | c_created_at => Z.compare (col_created_at a.2) (col_created_at b.2)
  | c_version => Z.compare (col_version a.2) (col_version b.2)
  end.

(** [ORDER BY c d, id ASC] *)
Definition order_compare (c : Column) (d : Direction) (a b : Z * Row) : comparison :=
  match (match d with ASC => column_compare c a b | DESC => column_compare c b a end) with
  | Eq => Z.compare a.1 b.1
  | o => o
  end.

Definition order_le (c : Column) (d : Direction) (a b : Z * Row) : Prop :=
  order_compare c d a b ≠ Gt.

#[global] Instance order_le_dec c d : RelDecision (order_le c d).
Proof. intros a b. unfold order_le. apply _. Defined.

(** [genres @> $2]: every supplied genre is an element of the row's array. *)
Definition array_contains (a : list (option string)) (b : list string) : bool :=
  forallb (fun g => bool_decide (Some g ∈ a)) b.

(** ** Query parameters *)

(** [url.Values.Get]: the first value of the key, the empty string when the
    key has none. *)
Definition url_Get (qs : gmap string (list string)) (key : string) : string :=
  match qs !! key with
  | Some (s :: _) => s
  | _ => ""
  end.

(** Modelled from the spec: [readString] is outside the sources.  The value
    of the key, and the fallback the handler passes when the query has no
    value for it.  [url.Values.Get] gives the empty string for a key that is
    not there, so a key with an empty value is read as a key that is not
    there. *)
Definition readString (qs : gmap string (list string)) (key defaultValue : string) : string :=
  let s := url_Get qs key in
  if bool_decide (s = "") then defaultValue else s.

(** [strings.Split(s, ",")] *)
Fixpoint split_commas (s : string) : list string :=
  match s with
  | EmptyString => [""]
  | String c rest =>
    if bool_decide (c = ","%char) then "" :: split_commas rest
    else match split_commas rest with
         | h :: t => String c h :: t
         | [] => [String c ""]
         end
  end.

(** Modelled from the spec: [readCSV] is outside the sources.  The
    comma-separated values of the key, and the fallback when the query has
    no value for it. *)
Definition readCSV (qs : gmap string (list string)) (key : string)
    (defaultValue : list string) : list string :=
  let csv := url_Get qs key in
  if bool_decide (csv = "") then defaultValue else split_commas csv.

Definition digit_of (c : ascii) : option Z :=
  let n := Z.of_N (N_of_ascii c) in
  if (48 <=? n) && (n <=? 57) then Some (n - 48) else None.

Fixpoint parse_digits (s : string) (acc : Z) : option Z :=
  match s with
  | EmptyString => Some acc
  | String c rest =>
    match digit_of c with
    | Some d => parse_digits rest (10 * acc + d)
    | None => None
    end
  end.

(** [strconv.Atoi]: an optional sign and at least one decimal digit, within
    the range of [int]. *)
Definition Atoi (s : string) : option Z :=
  let in_range (o : option Z) :=
    match o with
    | Some n => if (- 2 ^ 63 <=? n) && (n <? 2 ^ 63) then Some n else None
    | None => None
    end in
  match s with
  | EmptyString => None
  | String "-"%char EmptyString | String "+"%char EmptyString => None
  | String "-"%char rest => in_range (Z.opp <$> parse_digits rest 0)
  | String "+"%char rest => in_range (parse_digits rest 0)
  | _ => in_range (parse_digits s 0)
  end.

(** Modelled from the spec: [readInt] is outside the sources.  The integer
    value of the key; the fallback when the query has no value for it; and
    when the value is not an integer, an error on the key and the fallback. *)
Definition readInt (qs : gmap string (list string)) (key : string) (defaultValue : Z)
    (v : Validator) : Z * Validator :=
  let s := url_Get qs key in
  if bool_decide (s = "") then (defaultValue, v)
  else match Atoi s with
       | Some i => (i, v)
       | None => (defaultValue, AddError v key "must be an integer value")
       end.

Section Listing.

(** [to_tsvector('simple', title) @@ plainto_tsquery('simple', $1)]: the
    full-text match of the backend, taken as it comes. *)
Variable fts_match : string -> string -> bool.

(** The [WHERE] clause.  [pq.Array(genres)] sends a nil slice as NULL; then
    neither [genres @> $2] nor [$2 = '{}'] is true, and the clause, which
    keeps the rows where it is true, keeps none. *)
Definition text_predicate (title : string) (r : Row) : bool :=
  fts_match (col_title r) title || bool_decide (title = "").
Definition genre_predicate (genres : slice string) (r : Row) : bool :=
  match genres with
  | None => false
  | Some gs => array_contains (col_genres r) gs || bool_decide (gs = [])
  end.
Definition where_clause (title : string) (genres : slice string) (kr : Z * Row) : bool :=
  text_predicate title kr.2 && genre_predicate genres kr.2.

Definition filtered (title : string) (genres : slice string) (db : DB) : list (Z * Row) :=
  List.filter (where_clause title genres) (map_to_list (musics db)).

Definition ordered (c : Column) (d : Direction) (rows : list (Z * Row)) : list (Z * Row) :=
  merge_sort (order_le c d) rows.

Definition window (lim off : Z) (rows : list (Z * Row)) : list (Z * Row) :=
  take (Z.to_nat lim) (drop (Z.to_nat off) rows).

(** The statement of [GetAll]: every row of the answer carries the count
    of the first column, the number of rows the [WHERE] clause keeps. *)
Definition exec_select_all (title : string) (genres : slice string)
    (column direction : string) (lim off : Z) (db : DB)
    : result (list (Z * (Z * Row))) * DB :=
  let (flt, db1) := submit StSelectAll db in
  match flt with
  | Some e => (Err (ErrStorage e), db1)
  | None =>
    match column_of_name column, direction_of_name direction with
    | Some c, Some d =>
      if lim <? 0 then (Err (ErrStorage "pq: LIMIT must not be negative"), db1)
      else if off <? 0 then (Err (ErrStorage "pq: OFFSET must not be negative"), db1)
      else
        let rows := filtered title genres db1 in
        (Ok (pair (Z.of_nat (length rows)) <$> window lim off (ordered c d rows)), db1)
    | _, _ => (Err (ErrStorage "pq: the ORDER BY clause does not name a column and a direction"), db1)
    end
  end.

(** The loop over [rows.Next()]: each row overwrites [totalRecords] and
    appends its record. *)
Fixpoint scan_rows (rows : list (Z * (Z * Row))) (totalRecords : Z)
    (musics : list Music) : result (Z * list Music) :=
  match rows with
  | [] => Ok (totalRecords, musics)
  | (count, (id, r)) :: rest =>
    match scan_row id r with
    | Err e => Err e
    | Ok (music, gnrs) => scan_rows rest count (musics ++ [SanitizeGenres music gnrs])
    end
  end.

(** [func (m MusicsModel) GetAll(title string, genres []string, filters
    Filters)] *)
Definition GetAll (title : string) (genres : slice string) (filters : Filters)
    (db : DB) : result (list Music * Metadata) * DB :=
  let (res, db') := exec_select_all title genres (sortColumn filters)
                      (sortDirection filters) (limit filters) (offset filters) db in
  match res with
  | Err e => (Err e, db')
  | Ok rows =>
    match scan_rows rows 0 [] with
    | Err e => (Err e, db')
    | Ok (totalRecords, musics) =>
        (Ok (musics, calculateMetadata totalRecords (Page filters) (PageSize filters)), db')
    end
  end.


Definition SortSafeList_musics : list string :=
  ["id"; "title"; "duration"; "popularity"; "-id"; "-title"; "-duration"; "-popularity"].

(** The first half of [listMusicsHandler]: the input struct read from the
    query string, and the validator that [readInt] has written to. *)
Definition list_input (qs : gmap string (list string))
    : string * list string * Filters * Validator :=
  let v := New in
  let title := readString qs "title" "" in
  let genres := readCSV qs "genres" [] in
  let (page, v) := readInt qs "page" 1 v in
  let (pageSize, v) := readInt qs "page_size" 20 v in
  let sort := readString qs "sort" "id" in
  (title, genres, mkFilters page pageSize sort SortSafeList_musics, v).

(** [listMusicsHandler].  The slice that [readCSV] returns is not nil: it
    is the fallback [[]string{}] or what [strings.Split] gives. *)
Definition listMusicsHandler (qs : gmap string (list string)) (db : DB) : Response * DB :=
  let '(title, genres, filters, v) := list_input qs in
  let v := ValidateFilters v filters in
  if negb (Valid v) then (failedValidationResponse (Errors v), db)
  else
    let (res, db') := GetAll title (Some genres) filters db in
    match res with
    | Err e => (serverErrorResponse e, db')
    | Ok (musics, metadata) => (StatusOK_list musics metadata, db')
    end.

End Listing.

(** ** Notions used in the statements *)

(** The record that one row of an answer becomes: [Scan], then
    [SanitizeGenres]. *)
Definition to_Music (kr : Z * Row) : Music :=
  SanitizeGenres
    (mkMusic kr.1 (col_title kr.2) (col_duration kr.2) (col_popularity kr.2) None
             (col_created_at kr.2) (col_version kr.2))
    (scan_genres (col_genres kr.2)).

(** A row that [Scan] can read into a [Music]. *)
Definition scannable (r : Row) : bool :=
  fits_int16 (col_duration r) && fits_int32 (col_version r).

(** Every row of the table can be scanned into a [Music]: its duration is an
    [int16] and its version an [int32], as for every row that came in
    through [Insert] and [Update]. *)
Definition table_scannable (db : DB) : Prop :=
  map_Forall (fun _ r => scannable r = true) (musics db).

(** The entries of an array of the table that are not NULL, in order. *)
Definition non_null (g : list (option string)) : list string :=
  omap (fun o => o) g.

(** The dense list of the spec: the valid entries, in order. *)
Definition dense (genres : list NullString) : list string :=
  map ns_String (List.filter ns_Valid genres).

(** Whether the table takes the row that [Update] writes for a record: the
    array is not NULL, both checks hold, the new version is an [integer]. *)
Definition table_takes (ms : Music) : bool :=
  negb (is_nil (Genres ms)) &&
  row_accepted (mkRow (Title ms) (Duration ms) (Some <$> default [] (Genres ms))
                      (Popularity ms) 0 (Version ms + 1)).

(** The row that [Update] writes. *)
Definition updated_row (ms : Music) (r : Row) : Row :=
  mkRow (Title ms) (Duration ms) (Some <$> default [] (Genres ms))
        (to_numeric (Popularity ms)) (col_created_at r) (Version ms + 1).

(** The direction that a sort key asks for. *)
Definition direction_of (f : Filters) : Direction :=
  if has_minus (Sort f) then DESC else ASC.

(** The count that the loop of [GetAll] is left with: the count of the
    filtered rows when the page has a row, 0 when it has none. *)
Definition reported_total (rows page : list (Z * Row)) : Z :=
  match page with
  | [] => 0
  | _ :: _ => Z.of_nat (length rows)
  end.

(** What the handler hands to [GetAll] when the query names no page, page
    size or sort key. *)
Definition default_filters : Filters := mkFilters 1 20 "id" SortSafeList_musics.

(** ** The rules of the entity validator, in the words of the spec *)

Definition nonzero (p : spec_float) : Prop :=
  match p with S754_zero _ => False | _ => True end.

Definition above_zero (p : spec_float) : Prop :=
  match p with
  | S754_finite false _ _ | S754_infinity false => True
  | _ => False
  end.

(** title: present, at most 500 bytes. *)
Definition title_rule (m : Music) : Prop :=
  Title m ≠ "" /\ (String.length (Title m) <= 500)%nat.

(** duration: present (nonzero) and above 0. *)
Definition duration_rule (m : Music) : Prop :=
  Duration m ≠ 0 /\ 0 < Duration m.

(** popularity: present (nonzero) and above 0. *)
Definition popularity_rule (m : Music) : Prop :=
  nonzero (Popularity m) /\ above_zero (Popularity m).

(** genres: present, between 1 and 5 of them, no value twice. *)
Definition genres_rule (m : Music) : Prop :=
  Genres m ≠ None /\ 1 <= len (Genres m) <= 5 /\ NoDup (default [] (Genres m)).

#[global] Instance nonzero_dec p : Decision (nonzero p).
Proof. destruct p; cbn; apply _. Defined.
#[global] Instance above_zero_dec p : Decision (above_zero p).
Proof. destruct p as [| [|] | | [|] ? ?]; cbn; apply _. Defined.
#[global] Instance title_rule_dec m : Decision (title_rule m).
Proof. unfold title_rule. apply _. Defined.
#[global] Instance duration_rule_dec m : Decision (duration_rule m).
Proof. unfold duration_rule. apply _. Defined.
#[global] Instance popularity_rule_dec m : Decision (popularity_rule m).
Proof. unfold popularity_rule. apply _. Defined.
#[global] Instance genres_rule_dec m : Decision (genres_rule m).
Proof. unfold genres_rule. apply _. Defined.

(** The fields of a record that break their rule. *)
Definition violations (m : Music) : gset string :=
  (if decide (title_rule m) then ∅ else {["title"]}) ∪
  (if decide (duration_rule m) then ∅ else {["duration"]}) ∪
  (if decide (popularity_rule m) then ∅ else {["popularity"]}) ∪
  (if decide (genres_rule m) then ∅ else {["genres"]}).

(** ** The filter specification, in the words of the spec *)

(** A sort key was supplied and is not on the allow-list. *)
Definition bad_sort (qs : gmap string (list string)) : Prop :=
  url_Get qs "sort" ≠ "" /\ url_Get qs "sort" ∉ SortSafeList_musics.

(** A page was supplied and is not a positive integer. *)
Definition bad_page (qs : gmap string (list string)) : Prop :=
  url_Get qs "page" ≠ "" /\
  match Atoi (url_Get qs "page") with
  | Some n => n < 1
  | None => True
  end.

(** A page size was supplied and is not an integer between 1 and 100. *)
Definition bad_page_size (qs : gmap string (list string)) : Prop :=
  url_Get qs "page_size" ≠ "" /\
  match Atoi (url_Get qs "page_size") with
  | Some n => n < 1 \/ 100 < n
  | None => True
  end.

#[global] Instance bad_sort_dec qs : Decision (bad_sort qs).
Proof. unfold bad_sort. apply _. Defined.
#[global] Instance bad_page_dec qs : Decision (bad_page qs).
Proof. unfold bad_page. destruct (Atoi _); apply _. Defined.
#[global] Instance bad_page_size_dec qs : Decision (bad_page_size qs).
Proof. unfold bad_page_size. destruct (Atoi _); apply _. Defined.

(** The parameters of a query that break the filter specification. *)
Definition filter_violations (qs : gmap string (list string)) : gset string :=
  (if decide (bad_page qs) then {["page"]} else ∅) ∪
  (if decide (bad_page_size qs) then {["page_size"]} else ∅) ∪
  (if decide (bad_sort qs) then {["sort"]} else ∅).

(** ** Values used in the examples *)

(** The [float32] 1.5. *)
Definition f32_1_5 : spec_float := S754_finite false 12582912 (-23).

(** An empty table, a working backend. *)
Definition db0 : DB := mkDB ∅ 0 1700000000 [] [].

(** The record of the scenario, before it is inserted. *)
Definition songA : Music := mkMusic 0 "Song A" 200 f32_1_5 (Some ["pop"]) 0 0.

(** The backend after [songA] was inserted. *)
Definition db1 : DB := (Insert songA db0).2.

(** The record that [Insert] leaves in memory, which is also what [Get]
    returns for it. *)
Definition songA_v1 : Music := mkMusic 1 "Song A" 200 f32_1_5 (Some ["pop"]) 1700000000 1.

(** The update of the scenario: version 1, the new title. *)
Definition songA2 : Music := mkMusic 1 "Song A2" 200 f32_1_5 (Some ["pop"]) 1700000000 1.

(** The backend after that update. *)
Definition db2 : DB := (Update songA2 db1).2.

(** A record with the current version and a negative duration. *)
Definition songA_negative : Music :=
  mkMusic 1 "Song A" (-5) f32_1_5 (Some ["pop"]) 1700000000 1.

(** The requests of the scenario, as the handlers decode them. *)
Definition create_songA : CreateInput := mkCreateInput "Song A" 200 (Some ["pop"]) f32_1_5.
Definition retitle_songA : UpdateInput := mkUpdateInput (Some "Song A2") None None None.

(** A backend that fails the next statement. *)
Definition db_down : DB := mkDB (musics db1) 1 1700000000 [Some "driver: bad connection"] [].

(** A table whose row holds a null genre between two genres. *)
Definition db_null_genre : DB :=
  mkDB {[ 1 := mkRow "Song A" 200 [Some "pop"; None; Some "rock"] f32_1_5 1700000000 1 ]}
       1 1700000000 [] [].

(** A full-text match that matches nothing. *)
Definition fts_none (title query : string) : bool := false.



(** Page 2 of the listing in pages of 10, by [id]. *)
Definition second_page : Filters := mkFilters 2 10 "id" SortSafeList_musics.

(** ** Notions used in the further properties *)

(** The row that [Insert] writes for a record. *)
Definition inserted_row (mv : Music) (db : DB) : Row :=
  mkRow (Title mv) (Duration mv) (Some <$> default [] (Genres mv))
        (to_numeric (Popularity mv)) (now db) 1.

(** The record that [Insert] leaves in memory when it succeeds. *)
Definition inserted_Music (mv : Music) (db : DB) : Music :=
  mkMusic (musics_id_seq db + 1) (Title mv) (Duration mv) (Popularity mv) (Genres mv)
          (now db) 1.

(** What holds of a table that was filled through the sequence: the keys lie
    between 1 and the last value of the sequence, every row passes the
    checks of the table, and every version is at least 1. *)
Definition table_inv (db : DB) : Prop :=
  0 <= musics_id_seq db /\
  map_Forall (fun k r => 1 <= k <= musics_id_seq db /\
                         row_accepted r = true /\ 1 <= col_version r)
             (musics db).

(** No failure is scheduled: every statement to come goes through. *)
Definition fault_free (db : DB) : Prop := faults db = [].

(** The record that [createMusicHandler] builds from its input. *)
Definition created_Music (input : CreateInput) : Music :=
  mkMusic 0 (ci_Title input) (ci_Duration input) (ci_Popularity input)
          (ci_Genres input) 0 0.

(** A record whose popularity is the negative zero of [float32]. *)
Definition song_negative_zero : Music :=
  mkMusic 0 "Song Z" 200 (S754_zero true) (Some ["pop"]) 0 0.

(** A table whose only row has an array without any genre. *)
Definition db_no_genre : DB :=
  mkDB {[ 1 := mkRow "Song A" 200 [None] f32_1_5 1700000000 1 ]} 1 1700000000 [] [].


(** A create request with an empty title and no genres. *)
Definition create_empty : CreateInput := mkCreateInput "" 200 None f32_1_5.

(** The order of the listing, read on the records of the answer.  The
    genres of a record are not the array of its row, so the column [genres]
    has no reading on records. *)
Definition record_compare (c : Column) (a b : Music) : comparison :=
  match c with
  | c_id => Z.compare (Id a) (Id b)
  | c_title => String.compare (Title a) (Title b)
  | c_duration => Z.compare (Duration a) (Duration b)
  | c_genres => Eq
  | c_popularity => numeric_compare (Popularity a) (Popularity b)
  | c_created_at => Z.compare (CreatedAt a) (CreatedAt b)
  | c_version => Z.compare (Version a) (Version b)
  end.

Definition record_le (c : Column) (d : Direction) (a b : Music) : Prop :=
  let o := match d with ASC => record_compare c a b | DESC => record_compare c b a end in
  o = Lt \/ (o = Eq /\ Id a <= Id b).

(** A table with two tracks, and the filters of its pages of one. *)
Definition songB : Music := mkMusic 0 "Song B" 100 f32_1_5 (Some ["rock"; "pop"]) 0 0.
Definition db_two : DB := (Insert songB db1).2.
Definition songB_v1 : Music :=
  mkMusic 2 "Song B" 100 f32_1_5 (Some ["rock"; "pop"]) 1700000000 1.
Definition page_of_one (page : Z) (sort : string) : Filters :=
  mkFilters page 1 sort SortSafeList_musics.

(** The listing of the two tracks, newest key first. *)
Definition newest_first : Filters := mkFilters 1 20 "-id" SortSafeList_musics.


(** A row that keeps the rules of the entity validator: a title of 1 to 500
    bytes, a duration and a popularity above 0, and 1 to 5 genres, none of
    them NULL and none twice. *)
Definition row_valid (r : Row) : Prop :=
  col_title r ≠ "" /\ (String.length (col_title r) <= 500)%nat /\
  0 < col_duration r /\ above_zero (col_popularity r) /\
  exists g, col_genres r = Some <$> g /\ (1 <= length g <= 5)%nat /\ NoDup g.

(** Every row of the table keeps the rules. *)
Definition table_valid (db : DB) : Prop :=
  map_Forall (fun _ r => row_valid r) (musics db).

(** * Properties *)

(** Set goals that need no hypothesis. *)
Ltac sets := repeat match goal with H : _ |- _ => clear H end; set_solver.


(** ** SanitizeGenres *)

Lemma SanitizeGenres_Genres (genres : list NullString) : forall m,
  Genres (SanitizeGenres m genres) =
  match dense genres with
  | [] => Genres m
  | l => Some (default [] (Genres m) ++ l)
  end.
Proof.
  induction genres as [|g genres IH]; intros m; [reflexivity|].
  unfold SanitizeGenres, dense in *. cbn [fold_left List.filter].
  destruct (ns_Valid g); cbn [negb map].
  - rewrite IH. cbn [Genres set_Genres append default].
    destruct (map ns_String (List.filter ns_Valid genres)) as [|x l].
    + reflexivity.
    + unfold id. by rewrite <- app_assoc.
  - apply IH.
Qed.

Lemma SanitizeGenres_other (genres : list NullString) : forall m,
  SanitizeGenres m genres = set_Genres (Genres (SanitizeGenres m genres)) m.
Proof.
  induction genres as [|g genres IH]; intros m.
  - by destruct m.
  - unfold SanitizeGenres in *. cbn [fold_left].
    destruct (ns_Valid g); cbn [negb]; [|apply IH].
    rewrite IH at 1. by destruct m.
Qed.

Lemma dense_scan_genres (g : list (option string)) :
  dense (scan_genres g) = non_null g.
Proof.
  induction g as [|[s|] g IH]; [reflexivity| |];
    unfold dense, scan_genres, non_null in *; cbn; by rewrite IH.
Qed.

Lemma to_Music_Genres (kr : Z * Row) :
  default [] (Genres (to_Music kr)) = non_null (col_genres kr.2).
Proof.
  unfold to_Music. rewrite SanitizeGenres_Genres, dense_scan_genres.
  by destruct (non_null (col_genres kr.2)).
Qed.

Lemma to_Music_Id (kr : Z * Row) : Id (to_Music kr) = kr.1.
Proof. unfold to_Music. by rewrite SanitizeGenres_other. Qed.

Lemma to_Music_Version (kr : Z * Row) : Version (to_Music kr) = col_version kr.2.
Proof. unfold to_Music. by rewrite SanitizeGenres_other. Qed.

(** ** The statements, one by one *)

Lemma submit_musics s db : musics (submit s db).2 = musics db.
Proof. reflexivity. Qed.

Lemma submit_journal s db : journal (submit s db).2 = journal db ++ [s].
Proof. reflexivity. Qed.

Lemma scan_row_scannable id r :
  scan_row id r =
  if scannable r then
    Ok (mkMusic id (col_title r) (col_duration r) (col_popularity r) None
                (col_created_at r) (col_version r), scan_genres (col_genres r))
  else scan_row id r.
Proof.
  unfold scan_row, scannable.
  destruct (fits_int16 (col_duration r)), (fits_int32 (col_version r)); reflexivity.
Qed.

Lemma scan_row_Ok id r m g :
  scan_row id r = Ok (m, g) -> SanitizeGenres m g = to_Music (id, r).
Proof.
  unfold scan_row, to_Music.
  destruct (fits_int16 (col_duration r)), (fits_int32 (col_version r));
    cbn [negb]; intros [= <- <-]; reflexivity.
Qed.

Lemma scan_row_Err id r e : scan_row id r = Err e -> exists msg, e = ErrStorage msg.
Proof.
  unfold scan_row.
  destruct (fits_int16 (col_duration r)), (fits_int32 (col_version r));
    cbn [negb]; intros [= <-]; eauto.
Qed.

(** What [Get] does below 1: nothing is sent. *)
Lemma Get_below_1 id db : id < 1 -> Get id db = (Err ErrRecordNotFound, db).
Proof. intros H. unfold Get. by rewrite (proj2 (Z.ltb_lt id 1) H). Qed.

Lemma Delete_below_1 id db : id < 1 -> Delete id db = (Some ErrRecordNotFound, db).
Proof. intros H. unfold Delete. by rewrite (proj2 (Z.ltb_lt id 1) H). Qed.

(** What [Get] does from 1 on, by the cases of the statement. *)
Lemma Get_from_1 id db :
  1 <= id ->
  Get id db =
  (match pending_fault db with
   | Some e => Err (ErrStorage e)
   | None =>
     match musics db !! id with
     | None => Err ErrRecordNotFound
     | Some r =>
       match scan_row id r with
       | Ok _ => Ok (to_Music (id, r))
       | Err e => Err e
       end
     end
   end, (submit (StSelect id) db).2).
Proof.
  intros H. unfold Get, exec_select.
  rewrite (proj2 (Z.ltb_ge id 1) H). cbn [submit musics].
  destruct (pending_fault db) as [e|]; [reflexivity|].
  destruct (musics db !! id) as [r|]; [|reflexivity].
  destruct (scan_row id r) as [[m g]|e] eqn:E.
  - by rewrite (scan_row_Ok _ _ _ _ E).
  - destruct (scan_row_Err _ _ _ E) as [msg ->]. reflexivity.
Qed.

Lemma Delete_from_1 id db :
  1 <= id ->
  Delete id db =
  match pending_fault db with
  | Some e => (Some (ErrStorage e), (submit (StDelete id) db).2)
  | None =>
    match musics db !! id with
    | None => (Some ErrRecordNotFound, (submit (StDelete id) db).2)
    | Some _ => (None, set_musics (delete id (musics db)) (submit (StDelete id) db).2)
    end
  end.
Proof.
  intros H. unfold Delete, exec_delete.
  rewrite (proj2 (Z.ltb_ge id 1) H). cbn [submit musics].
  destruct (pending_fault db) as [e|]; [reflexivity|].
  destruct (musics db !! id) as [r|]; reflexivity.
Qed.

(** ** The order of the listing *)

Lemma numeric_compare_antisym a b :
  numeric_compare b a = CompOpp (numeric_compare a b).
Proof.
  destruct a as [sa|sa| |sa ma ea], b as [sb|sb| |sb mb eb]; cbn;
    try reflexivity; try (by destruct sa); try (by destruct sb);
    try (by destruct sa, sb).
  destruct sa, sb; cbn; try reflexivity;
    rewrite (Z.compare_antisym ea eb); destruct (ea ?= eb); cbn; try reflexivity;
    pose proof (Pos.compare_cont_antisym ma mb Eq) as E; cbn in E; rewrite <- E;
    by destruct (Pos.compare_cont Eq ma mb).
Qed.

Lemma element_compare_antisym a b :
  element_compare b a = CompOpp (element_compare a b).
Proof. destruct a, b; cbn; try reflexivity. apply String.compare_antisym. Qed.

Lemma array_compare_antisym a : forall b,
  array_compare b a = CompOpp (array_compare a b).
Proof.
  induction a as [|x a IH]; intros [|y b]; cbn; try reflexivity.
  rewrite (element_compare_antisym x y).
  destruct (element_compare x y); cbn; auto.
Qed.

Lemma column_compare_antisym c a b :
  column_compare c b a = CompOpp (column_compare c a b).
Proof.
  destruct c; cbn [column_compare];
    auto using Z.compare_antisym, String.compare_antisym,
               array_compare_antisym, numeric_compare_antisym.
Qed.

Lemma order_compare_antisym c d a b :
  order_compare c d b a = CompOpp (order_compare c d a b).
Proof.
  unfold order_compare.
  destruct d; rewrite (column_compare_antisym c a b);
    destruct (column_compare c a b); cbn; try reflexivity; apply Z.compare_antisym.
Qed.

#[global] Instance order_le_total c d : Total (order_le c d).
Proof.
  intros a b. unfold order_le. rewrite (order_compare_antisym c d a b).
  destruct (order_compare c d a b); cbn; auto.
Qed.

(** Two rows that the order does not separate have the same key. *)
Lemma order_compare_Eq c d a b : order_compare c d a b = Eq -> a.1 = b.1.
Proof.
  unfold order_compare.
  destruct d; destruct (column_compare c _ _); try discriminate; apply Z.compare_eq.
Qed.

Lemma array_contains_spec a b :
  array_contains a b = true <-> forall g, g ∈ b -> Some g ∈ a.
Proof.
  unfold array_contains. rewrite forallb_forall. split.
  - intros H g Hg. apply list_elem_of_In in Hg. apply H in Hg.
    by apply bool_decide_eq_true in Hg.
  - intros H g Hg. apply bool_decide_eq_true, H. by apply list_elem_of_In.
Qed.

Lemma last_count {A} (rows : list (Z * A)) (x : Z * A) (total : Z) :
  match last (x :: rows) with Some (count, _) => count | None => total end =
  match last rows with Some (count, _) => count | None => x.1 end.
Proof.
  destruct rows as [|y rows]; [by destruct x|].
  change (last (x :: y :: rows)) with (last (y :: rows)).
  destruct (last (y :: rows)) eqn:L; [done|]. by apply last_None in L.
Qed.

Section ListingFacts.

Variable fts_match : string -> string -> bool.

Lemma elem_of_filtered title genres db (kr : Z * Row) :
  kr ∈ filtered fts_match title genres db <->
  musics db !! kr.1 = Some kr.2 /\
  text_predicate fts_match title kr.2 = true /\ genre_predicate genres kr.2 = true.
Proof.
  unfold filtered. rewrite list_elem_of_In, List.filter_In, <- list_elem_of_In.
  destruct kr as [k r]. rewrite elem_of_map_to_list.
  unfold where_clause. rewrite andb_true_iff. reflexivity.
Qed.

(** The loop keeps the count of the last row it has read. *)
Lemma scan_rows_Ok rows : forall total acc total' ms,
  scan_rows rows total acc = Ok (total', ms) ->
  ms = acc ++ (to_Music <$> rows.*2) /\
  total' = match last rows with Some (count, _) => count | None => total end.
Proof.
  induction rows as [|[count [id r]] rows IH]; cbn [scan_rows]; intros total acc total' ms H.
  - injection H as <- <-. by rewrite app_nil_r.
  - destruct (scan_row id r) as [[m g]|e] eqn:E; [|discriminate].
    apply IH in H as [-> ->]. rewrite (scan_row_Ok _ _ _ _ E).
    split.
    + by rewrite <- app_assoc.
    + by rewrite last_count.
Qed.

Lemma scan_rows_scannable rows : forall total acc,
  Forall (fun x => scannable x.2.2 = true) rows ->
  scan_rows rows total acc =
  Ok (match last rows with Some (count, _) => count | None => total end,
      acc ++ (to_Music <$> rows.*2)).
Proof.
  induction rows as [|[count [id r]] rows IH]; cbn [scan_rows]; intros total acc H.
  - by rewrite app_nil_r.
  - apply Forall_cons in H as [Hr H]. cbn in Hr.
    rewrite scan_row_scannable, Hr, (IH _ _ H).
    rewrite last_count. cbn [fst fmap list_fmap snd]. by rewrite <- app_assoc.
Qed.

(** [GetAll], by the cases of its statement. *)
Lemma GetAll_unfold title genres f db :
  GetAll fts_match title genres f db =
  (match pending_fault db with
   | Some e => Err (ErrStorage e)
   | None =>
     match column_of_name (sortColumn f), direction_of_name (sortDirection f) with
     | Some c, Some d =>
       if limit f <? 0 then Err (ErrStorage "pq: LIMIT must not be negative")
       else if offset f <? 0 then Err (ErrStorage "pq: OFFSET must not be negative")
       else
         let rows := filtered fts_match title genres db in
         let page := window (limit f) (offset f) (ordered c d rows) in
         match scan_rows (pair (Z.of_nat (length rows)) <$> page) 0 [] with
         | Ok (totalRecords, musics) =>
             Ok (musics, calculateMetadata totalRecords (Page f) (PageSize f))
         | Err e => Err e
         end
     | _, _ => Err (ErrStorage "pq: the ORDER BY clause does not name a column and a direction")
     end
   end, (submit StSelectAll db).2).
Proof.
  unfold GetAll, exec_select_all. cbn [submit].
  destruct (pending_fault db) as [e|]; [reflexivity|].
  destruct (column_of_name (sortColumn f)) as [c|]; [|reflexivity].
  destruct (direction_of_name (sortDirection f)) as [d|]; [|reflexivity].
  destruct (limit f <? 0); [reflexivity|].
  destruct (offset f <? 0); [reflexivity|].
  unfold filtered. cbn [musics]. cbv zeta.
  destruct (scan_rows _ 0 []) as [[t ms]|e]; reflexivity.
Qed.

Lemma last_counted (n : Z) (page : list (Z * Row)) :
  match last (pair n <$> page) with Some (count, _) => count | None => 0 end =
  match page with [] => 0 | _ :: _ => n end.
Proof.
  rewrite fmap_last. destruct page as [|x page]; [reflexivity|].
  destruct (last (x :: page)) eqn:L; [reflexivity|]. by apply last_None in L.
Qed.

Lemma snd_counted (n : Z) (page : list (Z * Row)) : (pair n <$> page).*2 = page.
Proof. rewrite <- list_fmap_compose. apply list_fmap_id. Qed.

(** What an answer of [GetAll] is made of. *)
Lemma GetAll_Ok title genres f db ms md db' :
  GetAll fts_match title genres f db = (Ok (ms, md), db') ->
  exists c d,
    column_of_name (sortColumn f) = Some c /\
    direction_of_name (sortDirection f) = Some d /\
    let rows := filtered fts_match title genres db in
    let page := window (limit f) (offset f) (ordered c d rows) in
    ms = to_Music <$> page /\
    md = calculateMetadata (reported_total rows page) (Page f) (PageSize f).
Proof.
  rewrite GetAll_unfold. intros [= H _]. revert H.
  destruct (pending_fault db); [discriminate|].
  destruct (column_of_name (sortColumn f)) as [c|]; [|discriminate].
  destruct (direction_of_name (sortDirection f)) as [d|]; [|discriminate].
  destruct (limit f <? 0); [discriminate|].
  destruct (offset f <? 0); [discriminate|].
  cbv zeta. destruct (scan_rows _ 0 []) as [[t l]|e] eqn:E; [|discriminate].
  intros [= <- <-]. exists c, d. split; [done|]. split; [done|].
  apply scan_rows_Ok in E as [-> ->].
  rewrite snd_counted, last_counted. done.
Qed.

End ListingFacts.

(** ** The entity validator *)


Lemma dom_Check v ok key message :
  dom (Errors (Check v ok key message)) =
  dom (Errors v) ∪ (if ok then ∅ else {[key]}).
Proof.
  unfold Check, AddError. destruct ok; [set_solver|].
  destruct (Errors v !! key) eqn:E; cbn [Errors].
  - apply (elem_of_dom_2 (D := gset string)) in E. set_solver.
  - rewrite dom_insert_L. set_solver.
Qed.

Lemma Valid_dom v : Valid v = true <-> dom (Errors v) = ∅.
Proof.
  unfold Valid. rewrite bool_decide_eq_true, map_size_empty_iff.
  symmetry. apply dom_empty_iff_L.
Qed.

Lemma SFeqb_zero p :
  SFeqb p float_zero = match p with S754_zero _ => true | _ => false end.
Proof. destruct p as [s|s| |s m e]; try destruct s; reflexivity. Qed.

Lemma SFltb_zero p :
  SFltb float_zero p =
  match p with
  | S754_finite false _ _ | S754_infinity false => true
  | _ => false
  end.
Proof. destruct p as [s|s| |s m e]; try destruct s; reflexivity. Qed.

Lemma title_checks m :
  (if negb (bool_decide (Title m = "")) then ∅ else {["title"]} : gset string) ∪
  (if Z.of_nat (String.length (Title m)) <=? 500 then ∅ else {["title"]}) =
  if decide (title_rule m) then ∅ else {["title"]}.
Proof.
  unfold title_rule.
  destruct (bool_decide_reflect (Title m = "")) as [He|He];
    destruct (Z.leb_spec (Z.of_nat (String.length (Title m))) 500) as [Hl|Hl];
    cbn [negb]; destruct (decide _) as [[H1 H2]|H]; try sets; exfalso;
    first [done | lia | apply H; split; [done|lia]].
Qed.

Lemma duration_checks m :
  (if negb (Duration m =? 0) then ∅ else {["duration"]} : gset string) ∪
  (if Duration m >? 0 then ∅ else {["duration"]}) =
  if decide (duration_rule m) then ∅ else {["duration"]}.
Proof.
  unfold duration_rule. rewrite Z.gtb_ltb.
  destruct (Z.eqb_spec (Duration m) 0) as [He|He];
    destruct (Z.ltb_spec 0 (Duration m)) as [Hl|Hl];
    cbn [negb]; destruct (decide _) as [[H1 H2]|H]; try sets; exfalso;
    first [done | lia | by apply H].
Qed.

Lemma popularity_checks m :
  (if negb (SFeqb (Popularity m) float_zero) then ∅ else {["popularity"]} : gset string) ∪
  (if SFltb float_zero (Popularity m) then ∅ else {["popularity"]}) =
  if decide (popularity_rule m) then ∅ else {["popularity"]}.
Proof.
  unfold popularity_rule. rewrite SFeqb_zero, SFltb_zero.
  destruct (decide _) as [[H1 H2]|H].
  - revert H1 H2.
    destruct (Popularity m) as [s|[|]| |[|] mm e]; cbn; intros H1 H2; try done; sets.
  - revert H.
    destruct (Popularity m) as [s|[|]| |[|] mm e]; cbn; intros H; try sets;
      exfalso; apply H; done.
Qed.

Lemma genres_checks m :
  (if negb (is_nil (Genres m)) then ∅ else {["genres"]} : gset string) ∪
  (if len (Genres m) >=? 1 then ∅ else {["genres"]}) ∪
  (if len (Genres m) <=? 5 then ∅ else {["genres"]}) ∪
  (if Unique (Genres m) then ∅ else {["genres"]}) =
  if decide (genres_rule m) then ∅ else {["genres"]}.
Proof.
  unfold genres_rule, Unique. rewrite Z.geb_leb.
  destruct (decide _) as [(H1 & [H2 H3] & H4)|H].
  - rewrite (proj2 (Z.leb_le _ _)) by done.
    rewrite (proj2 (Z.leb_le _ _)) by done.
    rewrite bool_decide_eq_true_2 by done.
    destruct (Genres m); [cbn [is_nil negb]; sets|done].
  - revert H. destruct (Genres m) as [g|]; cbn [is_nil negb]; intros H.
    + destruct (Z.leb_spec 1 (len (Some g))) as [L1|L1];
        destruct (Z.leb_spec (len (Some g)) 5) as [L2|L2];
        destruct (bool_decide_reflect (NoDup (default [] (Some g)))) as [N|N];
        try sets; exfalso; by apply H.
    + destruct (Z.leb_spec 1 (len (A := string) None)) as [L1|L1];
        destruct (Z.leb_spec (len (A := string) None) 5) as [L2|L2];
        destruct (bool_decide (NoDup (default [] (None : slice string)))); sets.
Qed.

(** C5: for every candidate record, the fields that [ValidateMovie] reports
    are exactly the fields whose rule (title, duration, popularity, genres)
    is broken: every check runs, none hides another field; the record is
    valid exactly when no field is reported, which is exactly when the four
    rules hold. *)
Theorem ValidateMovie_violations (m : Music) :
  dom (Errors (ValidateMovie New m)) = violations m /\
  (Valid (ValidateMovie New m) = true <-> violations m = ∅) /\
  (violations m = ∅ <->
   title_rule m /\ duration_rule m /\ popularity_rule m /\ genres_rule m).
Proof.
  assert (Hdom : dom (Errors (ValidateMovie New m)) = violations m).
  { unfold ValidateMovie, violations. rewrite !dom_Check.
    rewrite <- title_checks, <- duration_checks, <- popularity_checks, <- genres_checks.
    cbn [New Errors]. rewrite dom_empty_L. set_solver. }
  split; [exact Hdom|]. split.
  - by rewrite Valid_dom, Hdom.
  - unfold violations.
    destruct (decide (title_rule m)), (decide (duration_rule m)),
             (decide (popularity_rule m)), (decide (genres_rule m));
      split; try tauto; set_solver.
Qed.

(** ** Reading and deleting *)

(** C9: the genre-sanitizing step appends to the record exactly the entries
    that are not null, in their order; the record that [Get] and [GetAll]
    fill starts without genres, so a record that they return holds the
    non-null genres of its row and nothing else. *)
Theorem SanitizeGenres_dense :
  (forall m genres,
     default [] (Genres (SanitizeGenres m genres)) =
     default [] (Genres m) ++ dense genres) /\
  (forall id db ms db',
     Get id db = (Ok ms, db') ->
     exists r, musics db !! id = Some r /\
               default [] (Genres ms) = non_null (col_genres r)) /\
  (forall fts title genres f db ms md db',
     GetAll fts title genres f db = (Ok (ms, md), db') ->
     forall m, m ∈ ms ->
     exists r, musics db !! Id m = Some r /\
               default [] (Genres m) = non_null (col_genres r)).
Proof.
  split; [|split].
  - intros m genres. rewrite SanitizeGenres_Genres.
    destruct (dense genres); [by rewrite app_nil_r|reflexivity].
  - intros id db ms db' H.
    destruct (Z.lt_ge_cases id 1) as [Hlt|Hge].
    + by rewrite Get_below_1 in H.
    + rewrite Get_from_1 in H by done. injection H as H _. revert H.
      destruct (pending_fault db); [discriminate|].
      destruct (musics db !! id) as [r|]; [|discriminate].
      destruct (scan_row id r); [|discriminate].
      intros [= <-]. exists r. split; [done|]. apply (to_Music_Genres (id, r)).
  - intros fts title genres f db ms md db' H m Hm.
    apply GetAll_Ok in H as (c & d & _ & _ & -> & _).
    apply list_elem_of_fmap in Hm as ([k r] & -> & Hkr).
    apply subseteq_take, subseteq_drop in Hkr.
    unfold ordered in Hkr. rewrite merge_sort_Permutation in Hkr.
    apply elem_of_filtered in Hkr as [Hkr _].
    exists r. rewrite to_Music_Id. split; [done|]. apply to_Music_Genres.
Qed.

Lemma SanitizeGenres_dense_witness :
  exists ms db', Get 1 db_null_genre = (Ok ms, db') /\
                 default [] (Genres ms) = ["pop"; "rock"].
Proof.
  eexists _, _. split; [reflexivity|].
  destruct SanitizeGenres_dense as (_ & H & _).
  destruct (H 1 db_null_genre _ _ eq_refl) as (r & Hr & ->).
  vm_compute in Hr. injection Hr as <-. reflexivity.
Defined.

(** C4: below 1, [Get] and [Delete] answer not-found and send nothing; from
    1 on, a key without a row is not-found for both, and every other
    failure comes back as the storage error it is, which the handlers turn
    into a server error. *)
Theorem Get_Delete_errors :
  (forall id db,
     id < 1 ->
     Get id db = (Err ErrRecordNotFound, db) /\
     Delete id db = (Some ErrRecordNotFound, db) /\
     showMusicHandler (Some id) db = (notFoundResponse, db) /\
     deleteMusicHandler (Some id) db = (notFoundResponse, db)) /\
  (forall id db,
     1 <= id -> pending_fault db = None -> musics db !! id = None ->
     (Get id db).1 = Err ErrRecordNotFound /\
     (Delete id db).1 = Some ErrRecordNotFound /\
     musics (Delete id db).2 = musics db) /\
  (forall id db msg,
     1 <= id -> pending_fault db = Some msg ->
     (Get id db).1 = Err (ErrStorage msg) /\
     (Delete id db).1 = Some (ErrStorage msg)) /\
  (forall id db e,
     1 <= id -> (Get id db).1 = Err e -> e ≠ ErrRecordNotFound ->
     (exists msg, e = ErrStorage msg) /\
     (showMusicHandler (Some id) db).1 = serverErrorResponse e) /\
  (forall id db e,
     1 <= id -> (Delete id db).1 = Some e -> e ≠ ErrRecordNotFound ->
     (exists msg, e = ErrStorage msg) /\
     (deleteMusicHandler (Some id) db).1 = serverErrorResponse e).
Proof.
  split; [|split; [|split; [|split]]].
  - intros id db Hid. unfold showMusicHandler, deleteMusicHandler.
    by rewrite Get_below_1, Delete_below_1.
  - intros id db Hid Hf Hrow.
    rewrite Get_from_1, Delete_from_1 by done. by rewrite Hf, Hrow.
  - intros id db msg Hid Hf.
    rewrite Get_from_1, Delete_from_1 by done. by rewrite Hf.
  - intros id db e Hid Hg Hne. split.
    + revert Hg. rewrite Get_from_1 by done. cbn [fst].
      destruct (pending_fault db); [intros [= <-]; eauto|].
      destruct (musics db !! id) as [r|]; [|by intros [= <-]].
      destruct (scan_row id r) eqn:E; [discriminate|].
      intros [= ->]. by apply scan_row_Err in E.
    + unfold showMusicHandler. destruct (Get id db) as [[m|e'] db']; [discriminate|].
      cbn in Hg. injection Hg as ->. by destruct e.
  - intros id db e Hid Hd Hne. split.
    + revert Hd. rewrite Delete_from_1 by done.
      destruct (pending_fault db); [intros [= <-]; eauto|].
      destruct (musics db !! id); [discriminate|]. by intros [= <-].
    + unfold deleteMusicHandler. destruct (Delete id db) as [[e'|] db']; [|discriminate].
      cbn in Hd. injection Hd as ->. by destruct e.
Qed.

Lemma Get_Delete_errors_witness :
  Get 0 db1 = (Err ErrRecordNotFound, db1) /\
  (Get 2 db1).1 = Err ErrRecordNotFound /\
  (Delete 2 db1).1 = Some ErrRecordNotFound /\
  (showMusicHandler (Some 1) db_down).1 = serverErrorResponse (ErrStorage "driver: bad connection").
Proof.
  destruct Get_Delete_errors as (H1 & H2 & H3 & H4 & _).
  split; [apply (H1 0 db1); lia|].
  destruct (H2 2 db1) as (Hg & Hd & _); [lia|reflexivity|reflexivity|].
  split; [exact Hg|]. split; [exact Hd|].
  apply (H4 1 db_down); [lia| |discriminate].
  apply (H3 1 db_down); [lia|reflexivity].
Defined.

(** ** Updating *)

(** [Update], by the cases of its statement. *)
Lemma Update_unfold ms db :
  Update ms db =
  match pending_fault db with
  | Some e => (Some (ErrStorage e), ms, (submit (StUpdate (Id ms) (Version ms)) db).2)
  | None =>
    match musics db !! Id ms with
    | None => (Some ErrEditConflict, ms, (submit (StUpdate (Id ms) (Version ms)) db).2)
    | Some r =>
      if negb (col_version r =? Version ms) then
        (Some ErrEditConflict, ms, (submit (StUpdate (Id ms) (Version ms)) db).2)
      else if table_takes ms then
        (None, set_Version (Version ms + 1) ms,
         set_musics (<[Id ms := updated_row ms r]> (musics db))
                    (submit (StUpdate (Id ms) (Version ms)) db).2)
      else
        (Some (ErrStorage
                 (if is_nil (Genres ms)
                  then "pq: null value in column genres violates not-null constraint"
                  else "pq: new row for relation musics is out of range or violates check constraint")),
         ms, (submit (StUpdate (Id ms) (Version ms)) db).2)
    end
  end.
Proof.
  unfold Update, exec_update, table_takes, updated_row. cbn [submit musics].
  destruct (pending_fault db) as [e|]; [reflexivity|].
  destruct (musics db !! Id ms) as [r|]; [|reflexivity].
  destruct (Z.eqb_spec (col_version r) (Version ms)) as [->|Hne]; cbn [negb]; [|reflexivity].
  destruct (Genres ms) as [g|]; cbn [pq_Array fmap option_fmap option_map is_nil negb andb default];
    [|reflexivity].
  unfold row_accepted, musics_duration_check, genres_length_check. cbn [col_duration col_genres col_version].
  change (map Some g) with (Some <$> g).
  destruct ((0 <=? Duration ms) && _ && fits_int32 (Version ms + 1)); reflexivity.
Qed.

Lemma Update_conflict ms db :
  pending_fault db = None ->
  (musics db !! Id ms = None \/
   exists r, musics db !! Id ms = Some r /\ col_version r ≠ Version ms) ->
  Update ms db = (Some ErrEditConflict, ms, (submit (StUpdate (Id ms) (Version ms)) db).2).
Proof.
  intros Hf Hz. rewrite Update_unfold, Hf.
  destruct Hz as [->|(r & -> & Hne)]; [reflexivity|].
  by rewrite (proj2 (Z.eqb_neq _ _) Hne).
Qed.

(** C2: when the conditional write of [Update] matches no row, because the
    key has no row or because the stored version is not the version the
    record carries, [Update] returns the edit conflict, the table is as it
    was and so is the record in memory. *)
Theorem Update_zero_rows (ms : Music) (db : DB) :
  pending_fault db = None ->
  (musics db !! Id ms = None \/
   exists r, musics db !! Id ms = Some r /\ col_version r ≠ Version ms) ->
  (exec_update (Id ms) (Title ms) (Duration ms) (Popularity ms)
               (pq_Array (Genres ms)) (Version ms) db).1 = Err ErrNoRows /\
  exists db', Update ms db = (Some ErrEditConflict, ms, db') /\ musics db' = musics db.
Proof.
  intros Hf Hz. split.
  - unfold exec_update. cbn [submit musics]. rewrite Hf.
    destruct Hz as [->|(r & -> & Hne)]; [reflexivity|].
    by rewrite (proj2 (Z.eqb_neq _ _) Hne).
  - eexists. split; [by apply Update_conflict|reflexivity].
Qed.

Lemma Update_zero_rows_witness :
  (exists db', Update songA2 db2 = (Some ErrEditConflict, songA2, db') /\
               musics db' = musics db2) /\
  (exists db', Update (mkMusic 7 "Song B" 100 f32_1_5 (Some ["rock"]) 0 1) db2 =
               (Some ErrEditConflict, mkMusic 7 "Song B" 100 f32_1_5 (Some ["rock"]) 0 1, db') /\
               musics db' = musics db2).
Proof.
  split.
  - apply (Update_zero_rows songA2 db2); [reflexivity|].
    right. eexists. split; [vm_compute; reflexivity|]. cbn. lia.
  - apply (Update_zero_rows (mkMusic 7 "Song B" 100 f32_1_5 (Some ["rock"]) 0 1) db2);
      [reflexivity|]. left. vm_compute. reflexivity.
Defined.

(** [Update] removes no row and lowers no version. *)
Lemma Update_versions_grow ms db k r :
  musics db !! k = Some r ->
  exists r', musics (Update ms db).2 !! k = Some r' /\
             col_version r <= col_version r' <= col_version r + 1.
Proof.
  intros Hk. rewrite Update_unfold.
  destruct (pending_fault db); [exists r; cbn; split; [done|lia]|].
  destruct (musics db !! Id ms) as [r0|] eqn:E; [|exists r; cbn; split; [done|lia]].
  destruct (Z.eqb_spec (col_version r0) (Version ms)) as [Hv|Hv]; cbn [negb];
    [|exists r; cbn; split; [done|lia]].
  destruct (table_takes ms); [|exists r; cbn; split; [done|lia]].
  cbn [snd set_musics musics]. destruct (decide (Id ms = k)) as [<-|Hne].
  - rewrite lookup_insert_eq. eexists. split; [done|].
    rewrite E in Hk. injection Hk as <-. cbn. lia.
  - rewrite lookup_insert_ne by done. exists r. split; [done|lia].
Qed.

(** C3, as amended: an [Update] whose record carries the stored version,
    sent to a backend that takes the statement, succeeds whenever the table
    takes the new row; the stored version is then the old one plus 1 and the
    record in memory carries it.  When the table refuses the row the call
    returns the storage error and changes nothing.  No [Update] lowers a
    stored version or raises it by more than 1. *)
Theorem Update_current_version (ms : Music) (db : DB) (r : Row) :
  pending_fault db = None ->
  musics db !! Id ms = Some r ->
  col_version r = Version ms ->
  (if table_takes ms then
     exists db', Update ms db = (None, set_Version (col_version r + 1) ms, db') /\
                 musics db' = <[Id ms := updated_row ms r]> (musics db) /\
                 col_version (updated_row ms r) = col_version r + 1
   else
     exists msg db', Update ms db = (Some (ErrStorage msg), ms, db') /\
                     musics db' = musics db) /\
  (forall k r0, musics db !! k = Some r0 ->
     exists r', musics (Update ms db).2 !! k = Some r' /\
                col_version r0 <= col_version r' <= col_version r0 + 1).
Proof.
  intros Hf Hr Hv. split; [|intros k r0; apply Update_versions_grow].
  rewrite Update_unfold, Hf, Hr, Hv, Z.eqb_refl. cbn [negb].
  destruct (table_takes ms); eexists; eauto.
Qed.

Lemma Update_current_version_witness :
  exists db', Update songA2 db1 = (None, set_Version 2 songA2, db') /\
              musics db' !! 1 = Some (mkRow "Song A2" 200 [Some "pop"] f32_1_5 1700000000 2).
Proof.
  destruct (Update_current_version songA2 db1
              (mkRow "Song A" 200 [Some "pop"] f32_1_5 1700000000 1)
              eq_refl eq_refl eq_refl) as [H _].
  change (table_takes songA2) with true in H. cbv iota in H.
  destruct H as (db' & Hu & Hm & _). exists db'. split; [exact Hu|].
  rewrite Hm. apply lookup_insert_eq.
Defined.

(** C3 as it stands fails: the record carries the stored version, the
    backend is up, and [Update] fails, because the table refuses the negative
    duration. *)
Lemma refused_at_current_version :
  musics db1 !! Id songA_negative = Some (mkRow "Song A" 200 [Some "pop"] f32_1_5 1700000000 1) /\
  Version songA_negative = 1 /\
  pending_fault db1 = None /\
  (Update songA_negative db1).1 =
    (Some (ErrStorage "pq: new row for relation musics is out of range or violates check constraint"),
     songA_negative) /\
  musics (Update songA_negative db1).2 = musics db1.
Proof. vm_compute. repeat split. Qed.

(** C1, as amended: once an [Update] carrying a version has succeeded, the
    stored version is one more, and a further [Update] on the same key that
    carries the old version gets the edit conflict and changes nothing: the
    version that counts is the one in the record handed to [Update].  The
    update handler hands over the version that its own [Get] has just read;
    its request has no version. *)
Theorem Update_stale_version :
  (forall ms db ms1 db' ms',
     Update ms db = (None, ms1, db') ->
     Id ms' = Id ms -> Version ms' = Version ms -> pending_fault db' = None ->
     Version ms1 = Version ms + 1 /\
     exists db'', Update ms' db' = (Some ErrEditConflict, ms', db'') /\
                  musics db'' = musics db') /\
  (forall id input db music db',
     Get id db = (Ok music, db') ->
     (exists r, musics db !! id = Some r /\ Version music = col_version r) /\
     Version (merge_input input music) = Version music /\
     updateMusicHandler (Some id) (Some input) db =
     if negb (Valid (ValidateMovie New (merge_input input music))) then
       (failedValidationResponse (Errors (ValidateMovie New (merge_input input music))), db')
     else
       match Update (merge_input input music) db' with
       | (Some e, _, db'') => (serverErrorResponse e, db'')
       | (None, music', db'') => (StatusOK music', db'')
       end).
Proof.
  split.
  - intros ms db ms1 db' ms' Hu Hid Hv Hf.
    rewrite Update_unfold in Hu. revert Hu.
    destruct (pending_fault db); [discriminate|].
    destruct (musics db !! Id ms) as [r|] eqn:E; [|discriminate].
    destruct (Z.eqb_spec (col_version r) (Version ms)) as [Hr|Hr]; cbn [negb]; [|discriminate].
    destruct (table_takes ms); [|discriminate].
    intros [= <- <-]. split; [reflexivity|].
    rewrite Update_conflict; [by eexists|exact Hf|]. right.
    exists (updated_row ms r). cbn [set_musics musics submit snd].
    rewrite Hid, lookup_insert_eq. split; [done|].
    rewrite Hv. cbn. lia.
  - intros id input db music db' Hg. split; [|split; [reflexivity|]].
    + destruct (Z.lt_ge_cases id 1) as [Hlt|Hge].
      * by rewrite Get_below_1 in Hg.
      * rewrite Get_from_1 in Hg by done. injection Hg as Hg _. revert Hg.
        destruct (pending_fault db); [discriminate|].
        destruct (musics db !! id) as [r|]; [|discriminate].
        destruct (scan_row id r); [|discriminate].
        intros [= <-]. exists r. split; [done|]. apply (to_Music_Version (id, r)).
    + unfold updateMusicHandler. rewrite Hg.
      destruct (negb _); [reflexivity|].
      by destruct (Update (merge_input input music) db') as [[[e|] m'] d'].
Qed.

Lemma Update_stale_version_witness :
  Insert songA db0 = (None, songA_v1, db1) /\
  (Get 1 db1).1 = Ok songA_v1 /\
  Update songA2 db1 = (None, set_Version 2 songA2, db2) /\
  exists db3, Update songA2 db2 = (Some ErrEditConflict, songA2, db3) /\
              musics db3 = musics db2.
Proof.
  assert (Hu : Update songA2 db1 = (None, set_Version 2 songA2, db2)) by reflexivity.
  split; [reflexivity|]. split; [reflexivity|]. split; [exact Hu|].
  destruct Update_stale_version as [H _].
  apply (H songA2 db1 _ db2 songA2 Hu eq_refl eq_refl eq_refl).
Defined.

(** C1 as it stands fails on the handler: the same update request, sent a
    second time, is answered with the record at version 3, not with an edit
    conflict. *)
Lemma update_request_repeated :
  let (r1, d1) := createMusicHandler (Some create_songA) db0 in
  let (r2, d2) := updateMusicHandler (Some 1) (Some retitle_songA) d1 in
  let (r3, d3) := updateMusicHandler (Some 1) (Some retitle_songA) d2 in
  r1 = StatusCreated songA_v1 /\
  r2 = StatusOK (set_Version 2 songA2) /\
  r3 = StatusOK (set_Version 3 songA2) /\
  r3 ≠ serverErrorResponse ErrEditConflict.
Proof. vm_compute. repeat split. discriminate. Qed.

(** ** Pagination metadata *)

Lemma ceil_div_bounds a b :
  0 < b -> (ceil_div a b - 1) * b < a <= ceil_div a b * b.
Proof.
  intros Hb. unfold ceil_div.
  pose proof (Z.div_mod (- a) b) as Hdm.
  pose proof (Z.mod_pos_bound (- a) b Hb) as Hm.
  nia.
Qed.

(** C7: [calculateMetadata] depends on its three arguments only; with no
    record it is the all-zero metadata whatever page and page size are
    asked for; with records and a positive page size it is the page, the
    page size, first page 1, last page the ceiling of total over page size,
    and the total; 21 records in pages of 10 end on page 3. *)
Theorem calculateMetadata_spec :
  (forall page pageSize,
     calculateMetadata 0 page pageSize = mkMetadata 0 0 0 0 0) /\
  (forall total page pageSize,
     0 < total -> 0 < pageSize ->
     calculateMetadata total page pageSize =
       mkMetadata page pageSize 1 (ceil_div total pageSize) total /\
     (ceil_div total pageSize - 1) * pageSize < total <= ceil_div total pageSize * pageSize) /\
  (forall page, last_page (calculateMetadata 21 page 10) = 3).
Proof.
  split; [reflexivity|]. split; [|reflexivity].
  intros total page pageSize Ht Hp. split.
  - unfold calculateMetadata. by rewrite (proj2 (Z.eqb_neq total 0)) by lia.
  - by apply ceil_div_bounds.
Qed.

Lemma calculateMetadata_spec_witness :
  calculateMetadata 25 3 10 = mkMetadata 3 10 1 3 25 /\
  (3 - 1) * 10 < 25 <= 3 * 10.
Proof.
  destruct calculateMetadata_spec as (_ & H & _).
  apply (H 25 3 10); lia.
Defined.

(** ** The filter specification *)

Lemma dom_AddError v key message :
  dom (Errors (AddError v key message)) = dom (Errors v) ∪ {[key]}.
Proof. apply (dom_Check v false). Qed.

Lemma Valid_false v key : key ∈ dom (Errors v) -> Valid v = false.
Proof.
  intros Hk. destruct (Valid v) eqn:E; [|reflexivity].
  apply Valid_dom in E. set_solver.
Qed.

Lemma url_Get_absent (qs : gmap string (list string)) key :
  qs !! key = None -> url_Get qs key = "".
Proof. unfold url_Get. by intros ->. Qed.

(** What [readInt] returns and reports, by the value of the key. *)
Lemma readInt_unfold qs key d v :
  readInt qs key d v =
  (match Atoi (url_Get qs key) with
   | Some i => if bool_decide (url_Get qs key = "") then d else i
   | None => d
   end,
   if bool_decide (url_Get qs key = "") then v
   else match Atoi (url_Get qs key) with
        | Some _ => v
        | None => AddError v key "must be an integer value"
        end).
Proof.
  unfold readInt. destruct (bool_decide (url_Get qs key = "")) eqn:E.
  - apply bool_decide_eq_true in E. rewrite E. reflexivity.
  - by destruct (Atoi (url_Get qs key)).
Qed.

Lemma page_checks qs :
  (if bool_decide (url_Get qs "page" = "") then ∅
   else match Atoi (url_Get qs "page") with
        | Some _ => ∅
        | None => {["page"]}
        end : gset string) ∪
  (if (match Atoi (url_Get qs "page") with
       | Some i => if bool_decide (url_Get qs "page" = "") then 1 else i
       | None => 1
       end) >? 0 then ∅ else {["page"]}) =
  if decide (bad_page qs) then {["page"]} else ∅.
Proof.
  unfold bad_page. rewrite Z.gtb_ltb.
  destruct (decide _) as [[H1 H2]|H].
  - rewrite bool_decide_eq_false_2 by done. revert H2.
    destruct (Atoi (url_Get qs "page")) as [n|]; intros H2; [|sets].
    rewrite (proj2 (Z.ltb_ge 0 n)) by lia. sets.
  - destruct (bool_decide_reflect (url_Get qs "page" = "")) as [He|He].
    + destruct (Atoi (url_Get qs "page")); cbn; sets.
    + revert H. destruct (Atoi (url_Get qs "page")) as [n|]; intros H; [|tauto].
      destruct (Z.ltb_spec 0 n) as [Hn|Hn]; [sets|]. exfalso. apply H. split; [done|lia].
Qed.

Lemma page_size_checks qs :
  (if bool_decide (url_Get qs "page_size" = "") then ∅
   else match Atoi (url_Get qs "page_size") with
        | Some _ => ∅
        | None => {["page_size"]}
        end : gset string) ∪
  (if (match Atoi (url_Get qs "page_size") with
       | Some i => if bool_decide (url_Get qs "page_size" = "") then 20 else i
       | None => 20
       end) >? 0 then ∅ else {["page_size"]}) ∪
  (if (match Atoi (url_Get qs "page_size") with
       | Some i => if bool_decide (url_Get qs "page_size" = "") then 20 else i
       | None => 20
       end) <=? 100 then ∅ else {["page_size"]}) =
  if decide (bad_page_size qs) then {["page_size"]} else ∅.
Proof.
  unfold bad_page_size. rewrite Z.gtb_ltb.
  destruct (decide _) as [[H1 H2]|H].
  - rewrite bool_decide_eq_false_2 by done. revert H2.
    destruct (Atoi (url_Get qs "page_size")) as [n|]; intros H2; [|sets].
    destruct (Z.ltb_spec 0 n) as [Hn|Hn]; destruct (Z.leb_spec n 100) as [Hm|Hm];
      try sets. lia.
  - destruct (bool_decide_reflect (url_Get qs "page_size" = "")) as [He|He].
    + destruct (Atoi (url_Get qs "page_size")); cbn; sets.
    + revert H. destruct (Atoi (url_Get qs "page_size")) as [n|]; intros H; [|tauto].
      destruct (Z.ltb_spec 0 n) as [Hn|Hn]; destruct (Z.leb_spec n 100) as [Hm|Hm];
        try sets; exfalso; apply H; (split; [done|lia]).
Qed.

Lemma sort_checks qs :
  (if PermittedValue (readString qs "sort" "id") SortSafeList_musics then ∅
   else {["sort"]} : gset string) =
  if decide (bad_sort qs) then {["sort"]} else ∅.
Proof.
  unfold bad_sort, readString, PermittedValue.
  destruct (bool_decide_reflect (url_Get qs "sort" = "")) as [He|He].
  - rewrite decide_False by tauto. reflexivity.
  - destruct (bool_decide_reflect (url_Get qs "sort" ∈ SortSafeList_musics)) as [Hs|Hs].
    + by rewrite decide_False by tauto.
    + by rewrite decide_True by tauto.
Qed.

Lemma dom_readInt qs key d v :
  dom (Errors (readInt qs key d v).2) =
  dom (Errors v) ∪
  (if bool_decide (url_Get qs key = "") then ∅
   else match Atoi (url_Get qs key) with
        | Some _ => ∅
        | None => {[key]}
        end).
Proof.
  rewrite readInt_unfold. cbn [snd].
  destruct (bool_decide (url_Get qs key = "")); [set_solver|].
  destruct (Atoi (url_Get qs key)); [set_solver|]. apply dom_AddError.
Qed.

Lemma fst_readInt qs key d v :
  (readInt qs key d v).1 =
  match Atoi (url_Get qs key) with
  | Some i => if bool_decide (url_Get qs key = "") then d else i
  | None => d
  end.
Proof. by rewrite readInt_unfold. Qed.

(** The errors that the list handler collects are the parameters that break
    the filter specification. *)
Lemma list_input_errors qs :
  dom (Errors (ValidateFilters (list_input qs).2 (list_input qs).1.2)) =
  filter_violations qs.
Proof.
  unfold list_input, filter_violations.
  rewrite <- page_checks, <- page_size_checks, <- sort_checks.
  rewrite <- (fst_readInt qs "page" 1 New).
  destruct (readInt qs "page" 1 New) as [page v1] eqn:E1.
  rewrite <- (fst_readInt qs "page_size" 20 v1).
  pose proof (dom_readInt qs "page" 1 New) as D1. rewrite E1 in D1.
  pose proof (dom_readInt qs "page_size" 20 v1) as D2.
  destruct (readInt qs "page_size" 20 v1) as [pageSize v2] eqn:E2.
  cbn [fst snd] in *. unfold ValidateFilters. cbn [Page PageSize Sort SortSafeList].
  rewrite !dom_Check, D2, D1. cbn [New Errors]. rewrite dom_empty_L.
  repeat match goal with
         | |- context [if ?b then ?x else ?y] =>
             generalize (if b then x else y); intro
         end.
  sets.
Qed.

Section ListHandlerFacts.

Variable fts_match : string -> string -> bool.

(** The list handler, by whether its query breaks the specification. *)
Lemma listMusicsHandler_unfold qs db :
  listMusicsHandler fts_match qs db =
  if decide (filter_violations qs = ∅) then
    match GetAll fts_match (list_input qs).1.1.1 (Some (list_input qs).1.1.2)
                 (list_input qs).1.2 db with
    | (Err e, db') => (serverErrorResponse e, db')
    | (Ok (musics, metadata), db') => (StatusOK_list musics metadata, db')
    end
  else
    (failedValidationResponse
       (Errors (ValidateFilters (list_input qs).2 (list_input qs).1.2)), db).
Proof.
  unfold listMusicsHandler.
  pose proof (list_input_errors qs) as Hd.
  destruct (list_input qs) as [[[title genres] f] v]. cbn [fst snd] in *.
  destruct (Valid (ValidateFilters v f)) eqn:E; cbn [negb].
  - apply Valid_dom in E. rewrite decide_True by congruence.
    by destruct (GetAll fts_match title (Some genres) f db) as [[[ms md]|e] db'].
  - rewrite decide_False; [reflexivity|].
    intros He. rewrite <- Hd in He. apply Valid_dom in He. congruence.
Qed.

End ListHandlerFacts.





(** C10: a parameter that the query does not have takes the value the
    handler names: page 1, page size 20, sort key [id] (ascending), the empty
    title and the empty genre list, which both match every row; a query
    without page, page size and sort key goes to [GetAll] with these; and
    the handler answers with a validation failure only when a parameter was
    supplied with an invalid value. *)
Theorem listMusicsHandler_defaults :
  (forall qs,
     (qs !! "title" = None -> (list_input qs).1.1.1 = "") /\
     (qs !! "genres" = None -> (list_input qs).1.1.2 = []) /\
     (qs !! "page" = None -> Page (list_input qs).1.2 = 1) /\
     (qs !! "page_size" = None -> PageSize (list_input qs).1.2 = 20) /\
     (qs !! "sort" = None ->
        Sort (list_input qs).1.2 = "id" /\
        sortColumn (list_input qs).1.2 = "id" /\
        sortDirection (list_input qs).1.2 = "ASC")) /\
  (forall fts r, where_clause fts "" (Some []) r = true) /\
  (forall fts qs db,
     qs !! "page" = None -> qs !! "page_size" = None -> qs !! "sort" = None ->
     listMusicsHandler fts qs db =
     match GetAll fts (readString qs "title" "") (Some (readCSV qs "genres" []))
                  default_filters db with
     | (Err e, db') => (serverErrorResponse e, db')
     | (Ok (musics, metadata), db') => (StatusOK_list musics metadata, db')
     end) /\
  (forall fts qs db errs,
     (listMusicsHandler fts qs db).1 = failedValidationResponse errs ->
     bad_page qs \/ bad_page_size qs \/ bad_sort qs).
Proof.
  split; [|split; [|split]].
  - intros qs. unfold list_input. rewrite !readInt_unfold. cbn [fst snd].
    unfold sortColumn, sortDirection. cbn [Page PageSize Sort].
    unfold readString, readCSV.
    split; [|split; [|split; [|split]]];
      intros H; apply url_Get_absent in H; rewrite H; cbn; try reflexivity;
      try (by destruct (Atoi "")).
  - intros fts r. unfold where_clause, text_predicate, genre_predicate.
    cbn. by rewrite !orb_true_r.
  - intros fts qs db Hp Hs Ho.
    apply url_Get_absent in Hp, Hs, Ho.
    rewrite listMusicsHandler_unfold.
    assert (Hv : filter_violations qs = ∅).
    { unfold filter_violations, bad_page, bad_page_size, bad_sort.
      rewrite !decide_False; [set_solver| | |]; rewrite ?Hp, ?Hs, ?Ho; tauto. }
    rewrite (decide_True _ _ Hv).
    assert (Hf : (list_input qs).1.2 = default_filters).
    { unfold list_input. rewrite !readInt_unfold. cbn [fst snd].
      unfold readString. by rewrite Hp, Hs, Ho. }
    assert (Ht : (list_input qs).1.1 = (readString qs "title" "", readCSV qs "genres" [])).
    { unfold list_input. by do 2 destruct (readInt _ _ _ _). }
    by rewrite Hf, Ht.
  - intros fts qs db errs. rewrite listMusicsHandler_unfold.
    destruct (decide (filter_violations qs = ∅)) as [He|Hne].
    + by destruct (GetAll _ _ _ _ _) as [[[ms md]|e] db'].
    + intros _. unfold filter_violations in Hne.
      destruct (decide (bad_page qs)); [tauto|].
      destruct (decide (bad_page_size qs)); [tauto|].
      destruct (decide (bad_sort qs)); [tauto|].
      exfalso. apply Hne. set_solver.
Qed.

Lemma listMusicsHandler_defaults_witness :
  listMusicsHandler fts_none ∅ db1 =
  (StatusOK_list [songA_v1] (mkMetadata 1 20 1 1 1),
   (submit StSelectAll db1).2).
Proof.
  destruct listMusicsHandler_defaults as (_ & _ & H & _).
  rewrite (H fts_none ∅ db1) by (vm_compute; reflexivity).
  vm_compute. reflexivity.
Defined.

(** ** Listing *)

Lemma direction_resolves f :
  direction_of_name (sortDirection f) = Some (direction_of f).
Proof. unfold sortDirection, direction_of. by destruct (has_minus (Sort f)). Qed.

Lemma where_clause_spec fts title genres (kr : Z * Row) :
  where_clause fts title genres kr = true <->
  (title = "" \/ fts (col_title kr.2) title = true) /\
  exists gs, genres = Some gs /\
             (gs = [] \/ forall g, g ∈ gs -> Some g ∈ col_genres kr.2).
Proof.
  unfold where_clause, text_predicate, genre_predicate.
  destruct genres as [gs|].
  - rewrite andb_true_iff, !orb_true_iff, !bool_decide_eq_true, array_contains_spec.
    split.
    + intros [Ht Hg]. split; [tauto|]. exists gs. tauto.
    + intros [Ht (gs' & [= <-] & Hg)]. tauto.
  - rewrite andb_false_r. split; [discriminate|].
    by intros [_ (gs & Hgs & _)].
Qed.

(** A nil slice of genres keeps no row. *)
Lemma filtered_nil fts title db : filtered fts title None db = [].
Proof.
  destruct (filtered fts title None db) as [|kr l] eqn:E; [reflexivity|].
  assert (Hin : kr ∈ filtered fts title None db) by (rewrite E; left).
  apply elem_of_filtered in Hin as (_ & _ & Hg). discriminate.
Qed.

(** The order of the listing is the order of the sort column in the
    direction asked for, and the key decides between rows that the column
    does not separate. *)
Lemma order_le_spec c d a b :
  order_le c d a b <->
  let o := match d with ASC => column_compare c a b | DESC => column_compare c b a end in
  o = Lt \/ (o = Eq /\ a.1 <= b.1).
Proof.
  unfold order_le, order_compare. cbv zeta.
  destruct (match d with ASC => _ | DESC => _ end); unfold Z.le;
    intuition congruence.
Qed.


Lemma Update_scannable ms db :
  fits_int16 (Duration ms) = true ->
  table_scannable db -> table_scannable (Update ms db).2.
Proof.
  intros Hd Hs. rewrite Update_unfold.
  destruct (pending_fault db); [exact Hs|].
  destruct (musics db !! Id ms) as [r|]; [|exact Hs].
  destruct (negb _); [exact Hs|].
  destruct (table_takes ms) eqn:Ht; [|exact Hs].
  cbn [snd set_musics musics]. apply map_Forall_insert_2; [|exact Hs].
  unfold table_takes, row_accepted in Ht. cbn [col_version] in Ht.
  apply andb_true_iff in Ht as [_ Ht]. apply andb_true_iff in Ht as [_ Ht].
  unfold scannable, updated_row. cbn [col_duration col_version]. by rewrite Hd, Ht.
Qed.

(** A filter that [ValidateFilters] lets through, with the allow-list of
    the handler, meets what the listing needs: its sort key names a column,
    its page is at least 1 and its page size between 1 and 100. *)
Lemma validated_filters f :
  SortSafeList f = SortSafeList_musics ->
  Valid (ValidateFilters New f) = true ->
  (exists c, column_of_name (sortColumn f) = Some c) /\
  1 <= Page f /\ 1 <= PageSize f <= 100.
Proof.
  intros Hl Hv. apply Valid_dom in Hv. revert Hv.
  unfold ValidateFilters. rewrite !dom_Check, !Z.gtb_ltb.
  destruct (Z.ltb_spec 0 (Page f)) as [Hp|Hp]; [|set_solver].
  destruct (Z.ltb_spec 0 (PageSize f)) as [Hs|Hs]; [|set_solver].
  destruct (Z.leb_spec (PageSize f) 100) as [Hm|Hm]; [|set_solver].
  unfold PermittedValue, sortColumn.
  destruct (bool_decide_reflect (Sort f ∈ SortSafeList f)) as [Hin|Hin]; [|set_solver].
  intros _. split; [|lia].
  rewrite Hl in Hin. unfold SortSafeList_musics in Hin.
  repeat (apply elem_of_cons in Hin as [->|Hin]; [by eexists|]).
  by apply elem_of_nil in Hin.
Qed.

(** C8, as amended: the rows that the listing query keeps are the rows of the
    table that pass both the text predicate (every row when the search
    string is empty) and the genre predicate (no row when the slice of genres
    is nil, every row when it is empty, otherwise the rows that hold every
    supplied genre); they are ordered by the sort column in the direction
    asked for, then by key; the answer is the window of [page_size] rows
    after the first [(page-1)*page_size]; the total of the metadata is the
    total that the rows of the window carry, which is the number of kept rows
    when the window holds a row; and when no row is kept the metadata is the
    all-zero metadata. *)
Theorem GetAll_listing fts title (genres : slice string) (f : Filters) (db : DB)
    (c : Column) :
  pending_fault db = None ->
  column_of_name (sortColumn f) = Some c ->
  1 <= Page f -> 0 <= PageSize f ->
  table_scannable db ->
  let rows := filtered fts title genres db in
  let sorted := ordered c (direction_of f) rows in
  let page := take (Z.to_nat (PageSize f))
                   (drop (Z.to_nat ((Page f - 1) * PageSize f)) sorted) in
  (forall k r,
     (k, r) ∈ rows <->
     musics db !! k = Some r /\
     (title = "" \/ fts (col_title r) title = true) /\
     exists gs, genres = Some gs /\
                (gs = [] \/ forall g, g ∈ gs -> Some g ∈ col_genres r)) /\
  (genres = None -> rows = []) /\
  sorted ≡ₚ rows /\
  Sorted (order_le c (direction_of f)) sorted /\
  (forall a b,
     order_le c (direction_of f) a b <->
     let o := match direction_of f with
              | ASC => column_compare c a b
              | DESC => column_compare c b a
              end in
     o = Lt \/ (o = Eq /\ a.1 <= b.1)) /\
  (forall a b, order_compare c (direction_of f) a b = Eq -> a.1 = b.1) /\
  GetAll fts title genres f db =
    (Ok (to_Music <$> page,
         calculateMetadata (reported_total rows page) (Page f) (PageSize f)),
     (submit StSelectAll db).2) /\
  (page ≠ [] -> reported_total rows page = Z.of_nat (length rows)) /\
  (rows = [] ->
   page = [] /\
   calculateMetadata (reported_total rows page) (Page f) (PageSize f) =
   mkMetadata 0 0 0 0 0).
Proof.
  intros Hf Hc Hp Hs Hscan rows sorted page.
  split; [|split; [|split; [|split; [|split; [|split; [|split; [|split]]]]]]].
  - intros k r. unfold rows. rewrite elem_of_filtered.
    rewrite <- (where_clause_spec fts title genres (k, r)).
    unfold where_clause. rewrite andb_true_iff. reflexivity.
  - intros ->. apply filtered_nil.
  - apply merge_sort_Permutation.
  - apply (Sorted_merge_sort (order_le c (direction_of f))).
  - intros a b. apply order_le_spec.
  - apply order_compare_Eq.
  - rewrite GetAll_unfold, Hf, Hc, direction_resolves.
    unfold limit, offset.
    rewrite (proj2 (Z.ltb_ge (PageSize f) 0)) by lia.
    rewrite (proj2 (Z.ltb_ge ((Page f - 1) * PageSize f) 0)) by nia.
    cbv zeta. fold rows. fold sorted. unfold window. fold page.
    rewrite scan_rows_scannable.
    + by rewrite snd_counted, last_counted.
    + apply Forall_fmap, Forall_forall. intros [k r] Hkr. cbn.
      apply subseteq_take, subseteq_drop in Hkr.
      unfold sorted, ordered in Hkr. rewrite merge_sort_Permutation in Hkr.
      apply elem_of_filtered in Hkr as [Hkr _]. by apply (Hscan k r).
  - by destruct page.
  - intros Hrows.
    assert (Hpage : page = []).
    { unfold page, sorted, ordered. rewrite Hrows. cbn.
      by rewrite drop_nil, take_nil. }
    by rewrite Hpage.
Qed.

Lemma GetAll_listing_witness :
  GetAll fts_none "" (Some ["pop"]) default_filters db1 =
    (Ok ([songA_v1], mkMetadata 1 20 1 1 1), (submit StSelectAll db1).2) /\
  GetAll fts_none "" None default_filters db1 =
    (Ok ([], mkMetadata 0 0 0 0 0), (submit StSelectAll db1).2).
Proof.
  assert (Hscan : table_scannable db1).
  { apply (bool_decide_unpack (table_scannable db1)). vm_compute. exact I. }
  split.
  - destruct (GetAll_listing fts_none "" (Some ["pop"]) default_filters db1 c_id
                eq_refl eq_refl ltac:(cbn; lia) ltac:(cbn; lia) Hscan)
      as (_ & _ & _ & _ & _ & _ & H & _).
    rewrite H. vm_compute. reflexivity.
  - destruct (GetAll_listing fts_none "" None default_filters db1 c_id
                eq_refl eq_refl ltac:(cbn; lia) ltac:(cbn; lia) Hscan)
      as (_ & _ & _ & _ & _ & _ & H & _).
    rewrite H. vm_compute. reflexivity.
Defined.

(** C8 as it stands fails on the total: the table holds one row, the query
    keeps it, and for page 2 the answer reports no record at all. *)
Lemma GetAll_total_of_empty_page :
  length (filtered fts_none "" (Some []) db1) = 1%nat /\
  GetAll fts_none "" (Some []) second_page db1 =
  (Ok ([], mkMetadata 0 0 0 0 0), (submit StSelectAll db1).2).
Proof. vm_compute. split; reflexivity. Qed.

(** * Further properties of the store and the handlers *)

(** ** Insert *)

Lemma non_null_Some (g : list string) : non_null (Some <$> g) = g.
Proof. induction g as [|x g IH]; [reflexivity|]. unfold non_null in *. cbn. by rewrite IH. Qed.

(** What a row written by [Insert] or [Update] reads back as. *)
Lemma to_Music_written id title duration popularity (g : list string) created version :
  to_Music (id, mkRow title duration (Some <$> g) popularity created version) =
  mkMusic id title duration popularity
          (match g with [] => None | _ :: _ => Some g end) created version.
Proof.
  unfold to_Music. rewrite SanitizeGenres_other, SanitizeGenres_Genres, dense_scan_genres.
  cbn [fst snd col_title col_duration col_genres col_popularity col_created_at col_version].
  rewrite non_null_Some. by destruct g.
Qed.

(** [numeric] keeps every value but the negative zero as it is. *)
Lemma to_numeric_id p : p ≠ S754_zero true -> to_numeric p = p.
Proof. by destruct p as [[|]| | |]. Qed.

Lemma to_numeric_above_zero p : above_zero p -> to_numeric p = p.
Proof. by destruct p as [[|]| | |]. Qed.

Lemma fault_free_pending db : fault_free db -> pending_fault db = None.
Proof. unfold fault_free, pending_fault. by intros ->. Qed.

Lemma pending_after s t db :
  fault_free db -> pending_fault (set_musics t (submit s db).2) = None.
Proof. unfold fault_free, pending_fault. cbn. by intros ->. Qed.

(** With no failure scheduled, the statement at hand goes through. *)
Ltac goes_through Hff :=
  match goal with
  | |- context [pending_fault ?d] =>
      replace (pending_fault d) with (@None string)
        by (unfold pending_fault, fault_free in *; cbn; by rewrite Hff)
  end.

Lemma fault_free_submit s db : fault_free db -> fault_free (submit s db).2.
Proof. unfold fault_free. cbn. by intros ->. Qed.

(** [Insert], by its outcomes: a storage error that leaves the record and the
    table as they were, or the new row under the next value of the
    sequence. *)
Lemma Insert_cases mv db :
  (exists msg db',
     Insert mv db = (Some (ErrStorage msg), mv, db') /\
     musics db' = musics db /\
     musics_id_seq db <= musics_id_seq db' <= musics_id_seq db + 1 /\
     faults db' = tail (faults db) /\ journal db' = journal db ++ [StInsert]) \/
  (exists db',
     Insert mv db = (None, inserted_Music mv db, db') /\
     pending_fault db = None /\ Genres mv ≠ None /\
     row_accepted (inserted_row mv db) = true /\
     musics db !! (musics_id_seq db + 1) = None /\
     musics db' = <[musics_id_seq db + 1 := inserted_row mv db]> (musics db) /\
     musics_id_seq db' = musics_id_seq db + 1 /\
     faults db' = tail (faults db) /\ journal db' = journal db ++ [StInsert]).
Proof.
  unfold Insert, exec_insert, inserted_Music, inserted_row. cbn [submit musics musics_id_seq now faults journal].
  destruct (pending_fault db) as [e|].
  { left. eexists _, _. split; [reflexivity|]. cbn. repeat split; lia. }
  destruct (Genres mv) as [g|]; cbn [pq_Array fmap option_fmap option_map default].
  2:{ left. eexists _, _. split; [reflexivity|]. cbn. repeat split; lia. }
  change (map Some g) with (Some <$> g).
  destruct (row_accepted _) eqn:Ha; cbn [negb].
  2:{ left. eexists _, _. split; [reflexivity|]. cbn. repeat split; lia. }
  destruct (musics db !! (musics_id_seq db + 1)) eqn:El.
  { left. eexists _, _. split; [reflexivity|]. cbn. repeat split; lia. }
  right. eexists. split; [reflexivity|]. cbn. by repeat split.
Qed.

(** X1: a record that [Insert] has stored is what [Get] returns for the key
    that [Insert] assigned: the same title, duration and genres, with the
    key, the time of the insert and version 1, and the popularity as
    [numeric] keeps it; so [Get] returns the very record that [Insert] left
    in memory unless the popularity is the negative zero, which comes back as
    zero. *)
Theorem Insert_then_Get (mv : Music) (db : DB) (g : list string) :
  fault_free db ->
  0 <= musics_id_seq db ->
  musics db !! (musics_id_seq db + 1) = None ->
  Genres mv = Some g -> g ≠ [] ->
  row_accepted (inserted_row mv db) = true ->
  fits_int16 (Duration mv) = true ->
  exists db',
    Insert mv db = (None, inserted_Music mv db, db') /\
    Id (inserted_Music mv db) = musics_id_seq db + 1 /\
    Version (inserted_Music mv db) = 1 /\
    (Get (musics_id_seq db + 1) db').1 =
      Ok (mkMusic (musics_id_seq db + 1) (Title mv) (Duration mv)
                  (to_numeric (Popularity mv)) (Genres mv) (now db) 1) /\
    (Popularity mv ≠ S754_zero true ->
     (Get (musics_id_seq db + 1) db').1 = Ok (inserted_Music mv db)).
Proof.
  intros Hff Hseq Hfree Hg Hne Hacc Hd.
  destruct (Insert_cases mv db) as [(msg & db' & Hi & _)|(db' & Hi & _ & _ & _ & _ & Hm & _ & Hfl & _)].
  - exfalso. revert Hi. unfold Insert, exec_insert. cbn [submit musics musics_id_seq now faults journal].
    rewrite (fault_free_pending db Hff), Hg. cbn [pq_Array fmap option_fmap option_map].
    change (map Some g) with (Some <$> default [] (Some g)).
    fold (inserted_row (mkMusic (Id mv) (Title mv) (Duration mv) (Popularity mv) (Some g)
                                (CreatedAt mv) (Version mv)) db).
    unfold inserted_row in *. rewrite Hg in Hacc. cbn [Title Duration Popularity Genres] in *.
    rewrite Hacc. cbn [negb]. rewrite Hfree. discriminate.
  - exists db'. split; [exact Hi|]. split; [reflexivity|]. split; [reflexivity|].
    assert (HG : (Get (musics_id_seq db + 1) db').1 =
                 Ok (mkMusic (musics_id_seq db + 1) (Title mv) (Duration mv)
                             (to_numeric (Popularity mv)) (Genres mv) (now db) 1)).
    { rewrite Get_from_1 by lia. cbn [fst].
      assert (Hp : pending_fault db' = None).
      { unfold pending_fault. rewrite Hfl. unfold fault_free in Hff. by rewrite Hff. }
      rewrite Hp, Hm, lookup_insert_eq.
      unfold inserted_row. rewrite Hg. cbn [default].
      rewrite scan_row_scannable. unfold scannable. cbn [col_duration col_version].
      rewrite Hd. cbn [andb fits_int32].
      rewrite to_Music_written.
      destruct g; [done|reflexivity]. }
    split; [exact HG|].
    intros Hz. rewrite HG, (to_numeric_id _ Hz). unfold inserted_Music. by rewrite Hg.
Qed.

Lemma Insert_then_Get_witness :
  (exists db',
     Insert songA db0 = (None, songA_v1, db') /\ (Get 1 db').1 = Ok songA_v1) /\
  (exists db',
     Insert song_negative_zero db0 =
       (None, mkMusic 1 "Song Z" 200 (S754_zero true) (Some ["pop"]) 1700000000 1, db') /\
     (Get 1 db').1 =
       Ok (mkMusic 1 "Song Z" 200 (S754_zero false) (Some ["pop"]) 1700000000 1)).
Proof.
  split.
  - destruct (Insert_then_Get songA db0 ["pop"]) as (db' & Hi & _ & _ & _ & Hg);
      [reflexivity|cbn; lia|reflexivity|reflexivity|discriminate|reflexivity|reflexivity|].
    exists db'. split; [exact Hi|]. apply Hg. discriminate.
  - destruct (Insert_then_Get song_negative_zero db0 ["pop"]) as (db' & Hi & _ & _ & Hg & _);
      [reflexivity|cbn; lia|reflexivity|reflexivity|discriminate|reflexivity|reflexivity|].
    exists db'. split; [exact Hi|exact Hg].
Defined.

(** X2: [Insert] touches no row that is there: every row of the table is
    found unchanged afterwards, at most the key that follows the sequence is
    new, and when [Insert] returns an error the table and the record in
    memory are as they were. *)
Theorem Insert_keeps_rows (mv : Music) (db : DB) :
  (forall k r, musics db !! k = Some r -> musics (Insert mv db).2 !! k = Some r) /\
  (forall k, k ≠ musics_id_seq db + 1 ->
             musics (Insert mv db).2 !! k = musics db !! k) /\
  (forall e, (Insert mv db).1.1 = Some e ->
             musics (Insert mv db).2 = musics db /\ (Insert mv db).1.2 = mv).
Proof.
  destruct (Insert_cases mv db) as [(msg & db' & Hi & Hm & _)|(db' & Hi & _ & _ & _ & Hfree & Hm & _)];
    rewrite Hi; cbn [fst snd]; rewrite Hm.
  - by repeat split.
  - split; [|split].
    + intros k r Hk. rewrite lookup_insert_ne; [done|]. intros <-. congruence.
    + intros k Hk. by rewrite lookup_insert_ne.
    + discriminate.
Qed.

(** ** The invariant of the table *)

Lemma table_inv_submit s db : table_inv db -> table_inv (submit s db).2.
Proof. by intros H. Qed.

Lemma Get_state id db : (Get id db).2 = db \/ (Get id db).2 = (submit (StSelect id) db).2.
Proof.
  destruct (Z.lt_ge_cases id 1) as [Hlt|Hge].
  - left. by rewrite Get_below_1.
  - right. by rewrite Get_from_1.
Qed.

Lemma row_accepted_updated ms r :
  row_accepted (updated_row ms r) =
  row_accepted (mkRow (Title ms) (Duration ms) (Some <$> default [] (Genres ms))
                      (Popularity ms) 0 (Version ms + 1)).
Proof. reflexivity. Qed.

Lemma Insert_inv mv db : table_inv db -> table_inv (Insert mv db).2.
Proof.
  intros [Hseq Hall].
  destruct (Insert_cases mv db) as [(msg & db' & Hi & Hm & Hs & _)|(db' & Hi & _ & _ & Ha & _ & Hm & Hs & _)];
    rewrite Hi; cbn [snd]; split; try lia; rewrite Hm.
  - eapply map_Forall_impl; [exact Hall|]. cbn. intros k r (Hk & Hr & Hv).
    repeat split; try done; lia.
  - apply map_Forall_insert_2.
    + rewrite Hs. repeat split; try done; lia.
    + eapply map_Forall_impl; [exact Hall|]. cbn. intros k r (Hk & Hr & Hv).
      repeat split; try done; lia.
Qed.

Lemma Update_inv ms db : table_inv db -> table_inv (Update ms db).2.
Proof.
  intros [Hseq Hall]. rewrite Update_unfold.
  destruct (pending_fault db); [by split|].
  destruct (musics db !! Id ms) as [r|] eqn:E; [|by split].
  destruct (Z.eqb_spec (col_version r) (Version ms)) as [Hv|Hv]; cbn [negb]; [|by split].
  destruct (table_takes ms) eqn:Ht; [|by split].
  split; [exact Hseq|]. cbn [snd set_musics musics musics_id_seq submit].
  apply map_Forall_insert_2; [|exact Hall].
  destruct (Hall _ _ E) as (Hk & _ & Hr).
  unfold table_takes in Ht. apply andb_true_iff in Ht as [_ Ht].
  rewrite row_accepted_updated. repeat split; try done; try lia. cbn. lia.
Qed.

Lemma Delete_inv id db : table_inv db -> table_inv (Delete id db).2.
Proof.
  intros [Hseq Hall].
  destruct (Z.lt_ge_cases id 1) as [Hlt|Hge].
  - by rewrite Delete_below_1.
  - rewrite Delete_from_1 by done.
    destruct (pending_fault db); [by split|].
    destruct (musics db !! id); [|by split].
    split; [exact Hseq|]. cbn [snd set_musics musics musics_id_seq submit].
    by apply map_Forall_delete.
Qed.

(** X3: the five operations of the store keep the table well formed: after
    any of them, whatever its outcome, the keys still lie between 1 and the
    last value of the sequence, every row still passes the checks of the
    table, and every version is still at least 1. *)
Theorem table_inv_preserved (db : DB) :
  table_inv db ->
  (forall mv, table_inv (Insert mv db).2) /\
  (forall ms, table_inv (Update ms db).2) /\
  (forall id, table_inv (Delete id db).2) /\
  (forall id, table_inv (Get id db).2) /\
  (forall fts title genres f, table_inv (GetAll fts title genres f db).2).
Proof.
  intros Hinv. split; [|split; [|split; [|split]]].
  - intros mv. by apply Insert_inv.
  - intros ms. by apply Update_inv.
  - intros id. by apply Delete_inv.
  - intros id. by destruct (Get_state id db) as [->| ->].
  - intros fts title genres f. by rewrite GetAll_unfold.
Qed.

Lemma table_inv_db0 : table_inv db0.
Proof. split; [cbn; lia|]. apply map_Forall_empty. Qed.

Lemma table_inv_preserved_witness :
  table_inv db1 /\ table_inv db2 /\ table_inv (Delete 1 db2).2.
Proof.
  assert (H1 : table_inv db1).
  { destruct (table_inv_preserved db0 table_inv_db0) as (H & _). apply (H songA). }
  assert (H2 : table_inv db2).
  { destruct (table_inv_preserved db1 H1) as (_ & H & _). apply (H songA2). }
  split; [exact H1|]. split; [exact H2|].
  destruct (table_inv_preserved db2 H2) as (_ & _ & H & _). apply (H 1).
Defined.

(** X4: keys are never used twice.  No operation lowers the sequence, and on
    a well-formed table a successful [Insert] assigns the value after the
    sequence, which is above every key of the table; so the key of a row
    that was deleted is not assigned again. *)
Theorem Insert_fresh_key (db : DB) :
  table_inv db ->
  (forall mv, musics_id_seq db <= musics_id_seq (Insert mv db).2) /\
  (forall ms, musics_id_seq (Update ms db).2 = musics_id_seq db) /\
  (forall id, musics_id_seq (Delete id db).2 = musics_id_seq db) /\
  (forall id, musics_id_seq (Get id db).2 = musics_id_seq db) /\
  (forall fts title genres f,
     musics_id_seq (GetAll fts title genres f db).2 = musics_id_seq db) /\
  (forall mv mv' db',
     Insert mv db = (None, mv', db') ->
     Id mv' = musics_id_seq db + 1 /\
     musics db !! Id mv' = None /\
     (forall k r, musics db !! k = Some r -> k < Id mv')).
Proof.
  intros [Hseq Hall]. split; [|split; [|split; [|split; [|split]]]].
  - intros mv.
    destruct (Insert_cases mv db) as [(msg & db' & Hi & _ & Hs & _)|(db' & Hi & _ & _ & _ & _ & _ & Hs & _)];
      rewrite Hi; cbn [snd]; lia.
  - intros ms. rewrite Update_unfold.
    destruct (pending_fault db); [reflexivity|].
    destruct (musics db !! Id ms); [|reflexivity].
    destruct (negb _); [reflexivity|]. by destruct (table_takes ms).
  - intros id. destruct (Z.lt_ge_cases id 1) as [Hlt|Hge].
    + by rewrite Delete_below_1.
    + rewrite Delete_from_1 by done.
      destruct (pending_fault db); [reflexivity|]. by destruct (musics db !! id).
  - intros id. by destruct (Get_state id db) as [->| ->].
  - intros fts title genres f. by rewrite GetAll_unfold.
  - intros mv mv' db' Hi.
    destruct (Insert_cases mv db) as [(msg & d & Hi' & _)|(d & Hi' & _ & _ & _ & Hfree & _)];
      rewrite Hi' in Hi; [discriminate|].
    injection Hi as <- <-. cbn [Id inserted_Music]. split; [reflexivity|]. split; [exact Hfree|].
    intros k r Hk. destruct (Hall _ _ Hk) as (Hb & _). lia.
Qed.

Lemma table_inv_after_delete : table_inv (Delete 1 db2).2.
Proof. apply Delete_inv, Update_inv, Insert_inv, table_inv_db0. Qed.

Lemma Insert_fresh_key_witness :
  exists mv' db', Insert songA (Delete 1 db2).2 = (None, mv', db') /\ Id mv' = 2.
Proof.
  pose proof table_inv_after_delete as Hinv.
  destruct (Insert_fresh_key (Delete 1 db2).2 Hinv) as (_ & _ & _ & _ & _ & H).
  eexists _, _. split; [reflexivity|].
  destruct (H songA _ _ eq_refl) as (Hid & _). exact Hid.
Defined.

Lemma Insert_keeps_rows_witness :
  musics (Insert songA db1).2 !! 1 = musics db1 !! 1 /\
  (Insert songA_negative db1).1.2 = songA_negative.
Proof.
  destruct (Insert_keeps_rows songA db1) as (_ & H & _).
  destruct (Insert_keeps_rows songA_negative db1) as (_ & _ & H').
  split; [apply H; by vm_compute|]. by eapply H'.
Defined.

(** ** Delete *)

(** X5: [Delete] of a key that has a row succeeds and removes that row and
    no other; the sequence and the other rows are as before, and from then
    on [Get] and [Delete] of the key answer not-found. *)
Theorem Delete_existing (id : Z) (db : DB) (r : Row) :
  1 <= id ->
  fault_free db ->
  musics db !! id = Some r ->
  exists db',
    Delete id db = (None, db') /\
    musics db' = delete id (musics db) /\
    (forall k, k ≠ id -> musics db' !! k = musics db !! k) /\
    (Get id db').1 = Err ErrRecordNotFound /\
    (Delete id db').1 = Some ErrRecordNotFound.
Proof.
  intros Hid Hff Hr. eexists. split; [|split; [|split; [|split]]].
  - rewrite Delete_from_1 by done. by rewrite (fault_free_pending db Hff), Hr.
  - reflexivity.
  - intros k Hk. cbn [set_musics musics]. by rewrite lookup_delete_ne.
  - rewrite Get_from_1 by done. cbn [fst].
    rewrite pending_after by done. cbn [set_musics musics]. by rewrite lookup_delete_eq.
  - rewrite Delete_from_1 by done.
    rewrite pending_after by done. cbn [set_musics musics]. by rewrite lookup_delete_eq.
Qed.

Lemma Delete_existing_witness :
  exists db', Delete 1 db2 = (None, db') /\ (Get 1 db').1 = Err ErrRecordNotFound.
Proof.
  destruct (Delete_existing 1 db2 (mkRow "Song A2" 200 [Some "pop"] f32_1_5 1700000000 2))
    as (db' & Hd & _ & _ & Hg & _); [lia|reflexivity|by vm_compute|].
  exists db'. split; [exact Hd|exact Hg].
Defined.

(** ** Update *)

(** The table after [Update]: as it was, or with the row of the record
    rewritten. *)
Lemma Update_table ms db :
  musics (Update ms db).2 = musics db \/
  exists r, musics db !! Id ms = Some r /\ col_version r = Version ms /\
            musics (Update ms db).2 = <[Id ms := updated_row ms r]> (musics db).
Proof.
  rewrite Update_unfold.
  destruct (pending_fault db); [by left|].
  destruct (musics db !! Id ms) as [r|]; [|by left].
  destruct (Z.eqb_spec (col_version r) (Version ms)) as [Hv|Hv]; cbn [negb]; [|by left].
  destruct (table_takes ms); [|by left].
  right. by exists r.
Qed.

(** X6: [Update] writes to the row of its record and to nothing else: every
    other row is as before, no key appears or disappears, and the row it
    writes keeps its time of creation. *)
Theorem Update_frame (ms : Music) (db : DB) :
  (forall k, k ≠ Id ms -> musics (Update ms db).2 !! k = musics db !! k) /\
  dom (musics (Update ms db).2) = dom (musics db) /\
  (forall r r',
     musics db !! Id ms = Some r -> musics (Update ms db).2 !! Id ms = Some r' ->
     col_created_at r' = col_created_at r).
Proof.
  destruct (Update_table ms db) as [->|(r0 & E & _ & ->)].
  - repeat split. congruence.
  - split; [|split].
    + intros k Hk. by rewrite lookup_insert_ne.
    + apply dom_insert_lookup_L. by eexists.
    + intros r r' Hr. rewrite E in Hr. injection Hr as <-.
      rewrite lookup_insert_eq. by intros [= <-].
Qed.

Lemma Update_frame_witness :
  musics (Update songA2 (Insert songA db1).2).2 !! 2 = musics (Insert songA db1).2 !! 2.
Proof.
  destruct (Update_frame songA2 (Insert songA db1).2) as (H & _).
  apply H. by vm_compute.
Defined.

(** X7: after a successful [Update], [Get] returns what was written: the
    title, duration and genres of the record, its popularity as [numeric]
    keeps it, the new version that [Update] has left in memory, and the time
    of creation of the row.  So the popularity comes back as it was written
    unless it is the negative zero, which comes back as zero. *)
Theorem Update_then_Get (ms ms' : Music) (db db' : DB) (r : Row) (g : list string) :
  1 <= Id ms ->
  fault_free db ->
  musics db !! Id ms = Some r ->
  Genres ms = Some g -> g ≠ [] ->
  fits_int16 (Duration ms) = true ->
  Update ms db = (None, ms', db') ->
  Version ms' = col_version r + 1 /\
  (Get (Id ms) db').1 =
    Ok (mkMusic (Id ms) (Title ms) (Duration ms) (to_numeric (Popularity ms))
                (Genres ms) (col_created_at r) (Version ms')) /\
  (Popularity ms ≠ S754_zero true ->
   (Get (Id ms) db').1 =
     Ok (mkMusic (Id ms) (Title ms) (Duration ms) (Popularity ms) (Genres ms)
                 (col_created_at r) (Version ms'))).
Proof.
  intros Hid Hff Hr Hg Hne Hd. rewrite Update_unfold, (fault_free_pending db Hff), Hr.
  destruct (Z.eqb_spec (col_version r) (Version ms)) as [Hv|Hv]; cbn [negb]; [|discriminate].
  destruct (table_takes ms) eqn:Ht; [|discriminate].
  intros [= <- <-]. cbn [Version set_Version]. split; [lia|].
  match goal with |- ?A = ?X /\ _ => assert (HG : A = X) end.
  { rewrite Get_from_1 by done. cbn [fst].
    goes_through Hff. cbn [set_musics musics]. rewrite lookup_insert_eq.
    unfold table_takes, row_accepted in Ht. cbn [col_version] in Ht.
    apply andb_true_iff in Ht as [_ Ht]. apply andb_true_iff in Ht as [_ Ht].
    rewrite scan_row_scannable. unfold scannable, updated_row. cbn [col_duration col_version].
    rewrite Hd, Ht. cbn [andb]. rewrite Hg. cbn [default].
    rewrite to_Music_written. by destruct g. }
  split; [exact HG|].
  intros Hz. by rewrite HG, (to_numeric_id _ Hz).
Qed.

Lemma Update_then_Get_witness :
  (Get 1 db2).1 = Ok (mkMusic 1 "Song A2" 200 f32_1_5 (Some ["pop"]) 1700000000 2).
Proof.
  destruct (Update_then_Get songA2 (set_Version 2 songA2) db1 db2
              (mkRow "Song A" 200 [Some "pop"] f32_1_5 1700000000 1) ["pop"])
    as (_ & _ & H); [cbn; lia|reflexivity|reflexivity|reflexivity|discriminate|reflexivity|reflexivity|].
  apply H. discriminate.
Defined.

(** X8: the record that a successful [Update] has left in memory can be
    updated again as it is, without reading it back: the second [Update]
    finds its version current, succeeds, and the stored version is then the
    first one plus 2. *)
Theorem Update_twice (ms ms1 : Music) (db db' : DB) :
  Update ms db = (None, ms1, db') ->
  pending_fault db' = None ->
  Version ms + 2 <= max_int32 ->
  exists ms2 db'' r'',
    Update ms1 db' = (None, ms2, db'') /\
    Version ms2 = Version ms + 2 /\
    musics db'' !! Id ms = Some r'' /\ col_version r'' = Version ms + 2.
Proof.
  intros Hu Hf Hmax. revert Hu. rewrite Update_unfold.
  destruct (pending_fault db); [discriminate|].
  destruct (musics db !! Id ms) as [r|] eqn:E; [|discriminate].
  destruct (Z.eqb_spec (col_version r) (Version ms)) as [Hv|Hv]; cbn [negb]; [|discriminate].
  destruct (table_takes ms) eqn:Ht; [|discriminate].
  intros [= <- <-]. rewrite Update_unfold, Hf.
  cbn [Id set_Version Version set_musics musics submit snd].
  rewrite lookup_insert_eq. cbn [updated_row col_version]. rewrite Z.eqb_refl. cbn [negb].
  assert (Ht2 : table_takes (set_Version (Version ms + 1) ms) = true).
  { revert Ht. unfold table_takes, row_accepted, fits_int32, max_int32 in *.
    cbn [Genres Title Duration Popularity Version set_Version col_version
         musics_duration_check genres_length_check col_duration col_genres].
    rewrite !andb_true_iff, !Z.leb_le. intros (Hn & (Hdur & Hlen) & Hlo & Hhi).
    repeat split; try done; lia. }
  rewrite Ht2. eexists _, _, _. split; [reflexivity|].
  cbn [Version set_Version Id set_musics musics]. split; [lia|].
  rewrite lookup_insert_eq. split; [reflexivity|]. cbn. lia.
Qed.

Lemma Update_twice_witness :
  exists ms2 db'' r'',
    Update (set_Version 2 songA2) db2 = (None, ms2, db'') /\
    Version ms2 = 3 /\ musics db'' !! 1 = Some r'' /\ col_version r'' = 3.
Proof.
  apply (Update_twice songA2 (set_Version 2 songA2) db1 db2);
    [reflexivity|reflexivity|by vm_compute].
Defined.

(** ** Reading *)

(** X9: reading writes nothing.  [Get] and [GetAll], and the handlers that
    show and list, leave the table and the sequence as they are whatever
    they return, and send at most one statement. *)
Theorem reads_change_nothing (db : DB) :
  (forall id,
     musics (Get id db).2 = musics db /\
     musics_id_seq (Get id db).2 = musics_id_seq db /\
     (journal (Get id db).2 = journal db \/
      journal (Get id db).2 = journal db ++ [StSelect id])) /\
  (forall fts title genres f,
     musics (GetAll fts title genres f db).2 = musics db /\
     musics_id_seq (GetAll fts title genres f db).2 = musics_id_seq db /\
     journal (GetAll fts title genres f db).2 = journal db ++ [StSelectAll]) /\
  (forall idParam, musics (showMusicHandler idParam db).2 = musics db) /\
  (forall fts qs, musics (listMusicsHandler fts qs db).2 = musics db).
Proof.
  assert (HGet : forall id,
     musics (Get id db).2 = musics db /\
     musics_id_seq (Get id db).2 = musics_id_seq db /\
     (journal (Get id db).2 = journal db \/
      journal (Get id db).2 = journal db ++ [StSelect id])).
  { intros id. destruct (Get_state id db) as [->| ->]; repeat split; auto. }
  assert (HAll : forall fts title genres f,
     musics (GetAll fts title genres f db).2 = musics db /\
     musics_id_seq (GetAll fts title genres f db).2 = musics_id_seq db /\
     journal (GetAll fts title genres f db).2 = journal db ++ [StSelectAll]).
  { intros fts title genres f. by rewrite GetAll_unfold. }
  split; [exact HGet|]. split; [exact HAll|]. split.
  - intros [id|]; [|reflexivity]. unfold showMusicHandler.
    destruct (HGet id) as (Hm & _). destruct (Get id db) as [[m|err] db']; [exact Hm|].
    by destruct err.
  - intros fts qs. rewrite listMusicsHandler_unfold.
    destruct (decide _); [|reflexivity].
    destruct (HAll fts (list_input qs).1.1.1 (Some (list_input qs).1.1.2)
                    (list_input qs).1.2) as (Hm & _).
    by destruct (GetAll _ _ _ _ _) as [[[ms md]|err] db'].
Qed.

(** X10: what [Get] returns for a row whose array holds no genre (it is
    empty, or all its entries are NULL) is a record with nil genres, not
    with an empty list; otherwise the genres are the non-null entries. *)
Theorem Get_genres (id : Z) (db db' : DB) (ms : Music) :
  Get id db = (Ok ms, db') ->
  exists r,
    musics db !! id = Some r /\
    Genres ms = match non_null (col_genres r) with
                | [] => None
                | g :: l => Some (g :: l)
                end /\
    Id ms = id /\ Title ms = col_title r /\ Duration ms = col_duration r /\
    Popularity ms = col_popularity r /\ CreatedAt ms = col_created_at r /\
    Version ms = col_version r.
Proof.
  intros H. destruct (Z.lt_ge_cases id 1) as [Hlt|Hge].
  - by rewrite Get_below_1 in H.
  - rewrite Get_from_1 in H by done. injection H as H _. revert H.
    destruct (pending_fault db); [discriminate|].
    destruct (musics db !! id) as [r|]; [|discriminate].
    destruct (scan_row id r); [|discriminate].
    intros [= <-]. exists r. split; [done|].
    unfold to_Music. rewrite SanitizeGenres_other, SanitizeGenres_Genres, dense_scan_genres.
    cbn [Genres set_Genres Id Title Duration Popularity CreatedAt Version fst snd default].
    split; [by destruct (non_null (col_genres r))|done].
Qed.

Lemma Get_genres_witness :
  exists ms, (Get 1 db_no_genre).1 = Ok ms /\ Genres ms = None.
Proof.
  eexists. split; [reflexivity|].
  destruct (Get_genres 1 db_no_genre _ _ eq_refl) as (r & Hr & Hg & _).
  vm_compute in Hr. injection Hr as <-. exact Hg.
Defined.

(** ** Validation and the table *)

Lemma ValidateMovie_dom m : dom (Errors (ValidateMovie New m)) = violations m.
Proof.
  unfold ValidateMovie, violations. rewrite !dom_Check.
  rewrite <- title_checks, <- duration_checks, <- popularity_checks, <- genres_checks.
  cbn [New Errors]. rewrite dom_empty_L. set_solver.
Qed.

Lemma ValidateMovie_rules m :
  Valid (ValidateMovie New m) = true ->
  title_rule m /\ duration_rule m /\ popularity_rule m /\ genres_rule m.
Proof.
  rewrite Valid_dom, ValidateMovie_dom. unfold violations.
  destruct (decide (title_rule m)), (decide (duration_rule m)),
           (decide (popularity_rule m)), (decide (genres_rule m));
    try tauto; set_solver.
Qed.

Lemma validated_row m popularity created version :
  Valid (ValidateMovie New m) = true ->
  fits_int32 version = true ->
  row_accepted (mkRow (Title m) (Duration m) (Some <$> default [] (Genres m))
                      popularity created version) = true.
Proof.
  intros Hv Hver. apply ValidateMovie_rules in Hv as (_ & [_ Hd] & _ & (Hn & [Hl1 Hl5] & _)).
  unfold row_accepted, musics_duration_check, genres_length_check.
  cbn [col_duration col_genres col_version]. rewrite Hver.
  rewrite (proj2 (Z.leb_le 0 (Duration m))) by lia. cbn [andb]. rewrite andb_true_r.
  unfold len in *. rewrite length_fmap.
  destruct (default [] (Genres m)) as [|x l] eqn:E; [reflexivity|]. cbn [fmap list_fmap].
  rewrite !andb_true_iff, !Z.leb_le. cbn [length] in *. lia.
Qed.

(** X11: a record that [ValidateMovie] lets through is a record that the
    table takes: its genres are not nil and within the check of the table,
    its duration is not negative.  So on a well-formed table and a backend
    that takes the statement, [Insert] of a validated record succeeds, and
    so does [Update] of a validated record that carries the stored
    version, below the last [integer]. *)
Theorem validated_is_accepted (m : Music) :
  Valid (ValidateMovie New m) = true ->
  (forall db,
     table_inv db -> pending_fault db = None ->
     exists db', Insert m db = (None, inserted_Music m db, db')) /\
  (forall db r,
     pending_fault db = None -> musics db !! Id m = Some r ->
     col_version r = Version m -> 0 <= Version m < max_int32 ->
     exists db', Update m db = (None, set_Version (Version m + 1) m, db')).
Proof.
  intros Hv. split.
  - intros db [Hseq Hall] Hf.
    destruct (Insert_cases m db) as [(msg & db' & Hi & _)|(db' & Hi & _)]; [|by eexists].
    exfalso. revert Hi. unfold Insert, exec_insert. cbn [submit musics musics_id_seq now faults journal].
    rewrite Hf. pose proof (ValidateMovie_rules m Hv) as (_ & _ & _ & (Hn & _)).
    destruct (Genres m) as [g|] eqn:Eg; [|done]. cbn [pq_Array fmap option_fmap option_map].
    pose proof (validated_row m (to_numeric (Popularity m)) (now db) 1 Hv eq_refl) as Ha. rewrite Eg in Ha. cbn [default] in Ha. unfold id in Ha.
    change (map Some g) with (Some <$> g). rewrite Ha. cbn [negb].
    destruct (musics db !! (musics_id_seq db + 1)) as [r|] eqn:El; [|discriminate].
    destruct (Hall _ _ El) as (Hk & _). lia.
  - intros db r Hf Hr Hver Hb. rewrite Update_unfold, Hf, Hr, Hver, Z.eqb_refl. cbn [negb].
    assert (Ht : table_takes m = true).
    { unfold table_takes. rewrite validated_row; [|done|].
      - pose proof (ValidateMovie_rules m Hv) as (_ & _ & _ & (Hn & _)).
        by destruct (Genres m).
      - unfold fits_int32, max_int32 in *. rewrite andb_true_iff, !Z.leb_le. lia. }
    rewrite Ht. by eexists.
Qed.

Lemma validated_is_accepted_witness :
  exists db', Insert songA db1 = (None, inserted_Music songA db1, db').
Proof.
  destruct (validated_is_accepted songA) as [H _]; [by vm_compute|].
  apply (H db1); [|reflexivity]. apply Insert_inv, table_inv_db0.
Defined.

(** ** The handlers that write *)

Lemma to_Music_eq (kr : Z * Row) :
  to_Music kr =
  mkMusic kr.1 (col_title kr.2) (col_duration kr.2) (col_popularity kr.2)
          (match non_null (col_genres kr.2) with [] => None | g :: l => Some (g :: l) end)
          (col_created_at kr.2) (col_version kr.2).
Proof.
  unfold to_Music. rewrite SanitizeGenres_other, SanitizeGenres_Genres, dense_scan_genres.
  cbn [Genres set_Genres Id Title Duration Popularity CreatedAt Version default].
  by destruct (non_null (col_genres kr.2)).
Qed.

Lemma Get_row id db r :
  1 <= id -> pending_fault db = None -> musics db !! id = Some r -> scannable r = true ->
  Get id db = (Ok (to_Music (id, r)), (submit (StSelect id) db).2).
Proof.
  intros Hid Hf Hr Hs. rewrite Get_from_1 by done.
  by rewrite Hf, Hr, scan_row_scannable, Hs.
Qed.

Lemma Insert_ok mv db :
  pending_fault db = None -> Genres mv ≠ None ->
  row_accepted (inserted_row mv db) = true ->
  musics db !! (musics_id_seq db + 1) = None ->
  Insert mv db =
  (None, inserted_Music mv db,
   mkDB (<[musics_id_seq db + 1 := inserted_row mv db]> (musics db))
        (musics_id_seq db + 1) (now db) (tail (faults db)) (journal db ++ [StInsert])).
Proof.
  intros Hf Hg Ha Hfree. unfold Insert, exec_insert, inserted_row, inserted_Music in *.
  cbn [submit musics musics_id_seq now faults journal]. rewrite Hf.
  destruct (Genres mv) as [g|]; [|done]. cbn [pq_Array fmap option_fmap option_map default] in *.
  unfold id in Ha. change (map Some g) with (Some <$> g). rewrite Ha. cbn [negb].
  by rewrite Hfree.
Qed.

(** X12: [createMusicHandler] sends nothing to the backend for a body that
    cannot be read or a record that breaks a rule, and answers the latter
    with the fields that break their rule.  For a record that keeps the
    rules, on a well-formed table and a backend without failure, it answers
    with the created record, which has the next key and version 1, and
    [showMusicHandler] for that key then answers with the same record. *)
Theorem createMusicHandler_cases (input : CreateInput) (db : DB) :
  createMusicHandler None db = (badRequestResponse, db) /\
  (violations (created_Music input) ≠ ∅ ->
   exists errs,
     createMusicHandler (Some input) db = (failedValidationResponse errs, db) /\
     dom errs = violations (created_Music input)) /\
  (violations (created_Music input) = ∅ ->
   table_inv db -> fault_free db -> fits_int16 (ci_Duration input) = true ->
   exists db',
     createMusicHandler (Some input) db =
       (StatusCreated (inserted_Music (created_Music input) db), db') /\
     (showMusicHandler (Some (musics_id_seq db + 1)) db').1 =
       StatusOK (inserted_Music (created_Music input) db)).
Proof.
  split; [reflexivity|]. unfold createMusicHandler. fold (created_Music input). split.
  - intros Hviol. eexists. split; [|apply ValidateMovie_dom].
    destruct (Valid (ValidateMovie New (created_Music input))) eqn:E; [|reflexivity].
    exfalso. apply Hviol. by rewrite <- ValidateMovie_dom, <- Valid_dom.
  - intros Hviol [Hseq Hall] Hff Hd.
    assert (Hv : Valid (ValidateMovie New (created_Music input)) = true).
    { by rewrite Valid_dom, ValidateMovie_dom. }
    rewrite Hv. cbn [negb].
    pose proof (ValidateMovie_rules _ Hv) as (_ & _ & [_ Hpop] & (Hn & [Hl1 _] & _)).
    assert (Hfree : musics db !! (musics_id_seq db + 1) = None).
    { destruct (musics db !! (musics_id_seq db + 1)) as [r|] eqn:El; [|done].
      destruct (Hall _ _ El) as (Hk & _). lia. }
    rewrite Insert_ok;
      [|by apply fault_free_pending|done|by apply validated_row|done].
    eexists. split; [reflexivity|].
    unfold showMusicHandler. rewrite (Get_row _ _ (inserted_row (created_Music input) db)).
    + cbn [fst]. f_equal. unfold inserted_row, inserted_Music.
      rewrite (to_numeric_above_zero _ Hpop).
      destruct (Genres (created_Music input)) as [g|] eqn:Eg; [|done].
      cbn [default]. rewrite to_Music_written.
      destruct g; [|reflexivity]. unfold len in Hl1. cbn in Hl1. lia.
    + lia.
    + unfold pending_fault. cbn. unfold fault_free in Hff. by rewrite Hff.
    + cbn [musics]. apply lookup_insert_eq.
    + unfold scannable, inserted_row. cbn. by rewrite Hd.
Qed.

Lemma createMusicHandler_cases_witness :
  (exists errs,
     createMusicHandler (Some create_empty) db1 = (failedValidationResponse errs, db1) /\
     dom errs = {["title"; "genres"]}) /\
  (exists db',
     createMusicHandler (Some create_songA) db0 = (StatusCreated songA_v1, db') /\
     (showMusicHandler (Some 1) db').1 = StatusOK songA_v1).
Proof.
  split.
  - destruct (createMusicHandler_cases create_empty db1) as (_ & H & _).
    destruct H as (errs & Hr & Hd); [by vm_compute|].
    exists errs. split; [exact Hr|]. rewrite Hd. by vm_compute.
  - destruct (createMusicHandler_cases create_songA db0) as (_ & _ & H).
    apply H; [by vm_compute|apply table_inv_db0|reflexivity|reflexivity].
Defined.



(** X14: [updateMusicHandler] run on its own never meets an edit conflict:
    the version it hands to [Update] is the one its [Get] has just read from
    the same table, so whatever the request and the state of the backend,
    its answer is not the server error of an edit conflict. *)
Theorem updateMusicHandler_no_conflict (idParam : option Z) (body : option UpdateInput)
    (db : DB) :
  (updateMusicHandler idParam body db).1 ≠ serverErrorResponse ErrEditConflict.
Proof.
  unfold updateMusicHandler. destruct idParam as [id|]; [|discriminate].
  destruct (Z.lt_ge_cases id 1) as [Hlt|Hge]; [by rewrite Get_below_1|].
  rewrite Get_from_1 by done.
  destruct (pending_fault db); [discriminate|].
  destruct (musics db !! id) as [r|] eqn:Hr; [|discriminate].
  destruct (scan_row id r) as [x|e] eqn:Es.
  2:{ apply scan_row_Err in Es as [msg ->]. discriminate. }
  destruct body as [input|]; [|discriminate].
  destruct (negb _); [discriminate|].
  rewrite Update_unfold.
  destruct (pending_fault _); [discriminate|].
  cbn [submit snd musics]. rewrite to_Music_eq.
  cbn [merge_input Id Version fst snd]. rewrite Hr, Z.eqb_refl. cbn [negb].
  destruct (table_takes _); discriminate.
Qed.

(** ** The pages of the listing *)

Lemma Sorted_drop_n {A} (R : relation A) (l : list A) (n : nat) :
  Sorted R l -> Sorted R (drop n l).
Proof.
  revert l. induction n as [|n IH]; intros [|x l] H; cbn; auto.
  apply IH. by inversion H.
Qed.

Lemma Sorted_take_n {A} (R : relation A) (l : list A) (n : nat) :
  Sorted R l -> Sorted R (take n l).
Proof.
  intros H. revert n. induction H as [|x l Hs IH Hhd]; intros [|n]; cbn; try constructor.
  - apply IH.
  - destruct Hhd as [|y l Hxy]; destruct n; cbn; by constructor.
Qed.

Lemma filter_sublist {A} (f : A -> bool) (l : list A) : List.filter f l `sublist_of` l.
Proof.
  induction l as [|x l IH]; cbn; [constructor|].
  destruct (f x); by constructor.
Qed.

Lemma Id_to_Music (page : list (Z * Row)) : Id <$> (to_Music <$> page) = page.*1.
Proof.
  rewrite <- list_fmap_compose. apply list_fmap_ext. intros i [k r] _. apply to_Music_Id.
Qed.

Section PageFacts.

Variable fts_match : string -> string -> bool.

(** The keys of a window of the ordered rows are distinct. *)
Lemma window_NoDup title genres db c d lim off :
  NoDup (window lim off (ordered c d (filtered fts_match title genres db))).*1.
Proof.
  eapply sublist_NoDup.
  2:{ apply fmap_sublist. unfold window.
      etrans; [apply sublist_take|apply sublist_drop]. }
  unfold ordered. rewrite merge_sort_Permutation.
  eapply sublist_NoDup; [|apply fmap_sublist, filter_sublist].
  apply NoDup_fst_map_to_list.
Qed.

Lemma elem_of_window title genres db c d lim off kr :
  kr ∈ window lim off (ordered c d (filtered fts_match title genres db)) ->
  kr ∈ filtered fts_match title genres db.
Proof.
  intros H. apply subseteq_take, subseteq_drop in H.
  unfold ordered in H. by rewrite merge_sort_Permutation in H.
Qed.

(** X15: a page that [GetAll] returns holds at most [page_size] records, no
    key twice, and only records that hold every genre asked for and whose
    title matches the search, when there is one; a page that holds a record
    was asked for with a slice of genres that is not nil. *)
Theorem GetAll_page title (genres : slice string) (f : Filters) (db db' : DB)
    (ms : list Music) (md : Metadata) :
  GetAll fts_match title genres f db = (Ok (ms, md), db') ->
  (length ms <= Z.to_nat (PageSize f))%nat /\
  NoDup (Id <$> ms) /\
  (forall m, m ∈ ms ->
     (exists gs, genres = Some gs /\
                 forall g, g ∈ gs -> g ∈ default [] (Genres m)) /\
     (title = "" \/ fts_match (Title m) title = true) /\
     exists r, musics db !! Id m = Some r).
Proof.
  intros H. apply GetAll_Ok in H as (c & d & _ & _ & -> & _).
  split; [|split].
  - rewrite length_fmap. unfold window, limit. rewrite length_take. lia.
  - rewrite Id_to_Music. apply window_NoDup.
  - intros m Hm. apply list_elem_of_fmap in Hm as ([k r] & -> & Hkr).
    apply elem_of_window, elem_of_filtered in Hkr as (Hr & Ht & Hg).
    cbn [fst snd] in *. split; [|split].
    + unfold genre_predicate in Hg. destruct genres as [gs|]; [|discriminate].
      exists gs. split; [reflexivity|].
      intros g Hin. rewrite to_Music_Genres. cbn [snd].
      apply orb_true_iff in Hg as [Hg|Hg].
      * apply array_contains_spec with (g := g) in Hg; [|done].
        unfold non_null. apply list_elem_of_omap. by exists (Some g).
      * apply bool_decide_eq_true in Hg. subst. by apply elem_of_nil in Hin.
    + rewrite to_Music_eq. cbn [Title snd].
      unfold text_predicate in Ht. apply orb_true_iff in Ht as [Ht|Ht]; [by right|].
      left. by apply bool_decide_eq_true in Ht.
    + exists r. by rewrite to_Music_Id.
Qed.

Lemma column_compare_record c a b :
  c ≠ c_genres ->
  column_compare c a b = record_compare c (to_Music a) (to_Music b).
Proof. intros Hc. rewrite !to_Music_eq. by destruct c. Qed.

(** X16: the records of a page come in the order asked for: by the sort
    column in the direction of the sort key, and by key where the column
    does not tell two records apart. *)
Theorem GetAll_sorted title genres (f : Filters) (db db' : DB)
    (ms : list Music) (md : Metadata) (c : Column) :
  GetAll fts_match title genres f db = (Ok (ms, md), db') ->
  column_of_name (sortColumn f) = Some c -> c ≠ c_genres ->
  Sorted (record_le c (direction_of f)) ms.
Proof.
  intros H Hc Hg. apply GetAll_Ok in H as (c' & d & Hc' & Hd & -> & _).
  rewrite Hc in Hc'. injection Hc' as <-.
  rewrite direction_resolves in Hd. injection Hd as <-.
  apply (Sorted_fmap to_Music (order_le c (direction_of f))).
  - intros a b Hab. apply order_le_spec in Hab. unfold record_le.
    rewrite (to_Music_Id a), (to_Music_Id b).
    by rewrite <- !column_compare_record.
  - unfold window. apply Sorted_take_n, Sorted_drop_n.
    apply (Sorted_merge_sort (order_le c (direction_of f))).
Qed.

(** X17: pages follow one another without a gap and without a repeat: on the
    same table, the page after page [p] starts where page [p] ends, so the
    two together are the window of twice the page size at the offset of
    page [p], and no key is on both. *)
Theorem GetAll_next_page title genres (f f' : Filters) (dbp dbp' dbq dbq' : DB)
    (ms ms' : list Music) (md md' : Metadata) :
  musics dbq = musics dbp ->
  Sort f' = Sort f -> PageSize f' = PageSize f -> Page f' = Page f + 1 ->
  1 <= Page f ->
  GetAll fts_match title genres f dbp = (Ok (ms, md), dbp') ->
  GetAll fts_match title genres f' dbq = (Ok (ms', md'), dbq') ->
  NoDup (Id <$> (ms ++ ms')) /\
  exists c d,
    ms ++ ms' =
    to_Music <$> window (2 * PageSize f) (offset f)
                        (ordered c d (filtered fts_match title genres dbp)).
Proof.
  intros Hm Hs Hps Hp Hp1 H H'.
  assert (Hlim : 0 <= PageSize f).
  { rewrite GetAll_unfold in H. injection H as H _. revert H.
    destruct (pending_fault dbp); [discriminate|].
    destruct (column_of_name _); [|discriminate].
    destruct (direction_of_name _); [|discriminate].
    unfold limit. destruct (Z.ltb_spec (PageSize f) 0); [discriminate|]. lia. }
  apply GetAll_Ok in H as (c & d & Hc & Hd & -> & _).
  apply GetAll_Ok in H' as (c' & d' & Hc' & Hd' & -> & _).
  assert (Hcc : c' = c).
  { unfold sortColumn in *. rewrite Hs, Hc in Hc'. congruence. }
  assert (Hdd : d' = d).
  { unfold sortDirection in *. rewrite Hs, Hd in Hd'. congruence. }
  subst c' d'.
  assert (Hf : filtered fts_match title genres dbq = filtered fts_match title genres dbp).
  { unfold filtered. by rewrite Hm. }
  rewrite Hf.
  assert (Hw : window (limit f) (offset f) (ordered c d (filtered fts_match title genres dbp)) ++
               window (limit f') (offset f') (ordered c d (filtered fts_match title genres dbp)) =
               window (2 * PageSize f) (offset f)
                      (ordered c d (filtered fts_match title genres dbp))).
  { unfold window, limit, offset. rewrite Hps, Hp.
    replace (Z.to_nat ((Page f + 1 - 1) * PageSize f))
      with (Z.to_nat ((Page f - 1) * PageSize f) + Z.to_nat (PageSize f))%nat
      by (rewrite <- Z2Nat.inj_add by nia; f_equal; lia).
    rewrite <- drop_drop, take_take_drop. f_equal. lia. }
  split.
  - rewrite <- fmap_app, Hw, Id_to_Music. apply window_NoDup.
  - exists c, d. by rewrite <- fmap_app, Hw.
Qed.

End PageFacts.

Lemma db_two_listing :
  GetAll fts_none "" (Some ["pop"]) newest_first db_two =
  (Ok ([songB_v1; songA_v1], mkMetadata 1 20 1 1 2), (submit StSelectAll db_two).2).
Proof. by vm_compute. Qed.

Lemma GetAll_page_witness :
  (length [songB_v1; songA_v1] <= Z.to_nat (PageSize newest_first))%nat /\
  NoDup (Id <$> [songB_v1; songA_v1]).
Proof.
  destruct (GetAll_page fts_none "" (Some ["pop"]) newest_first db_two _ _ _ db_two_listing)
    as (Hl & Hn & _).
  split; [exact Hl|exact Hn].
Defined.

Lemma GetAll_sorted_witness :
  Sorted (record_le c_id DESC) [songB_v1; songA_v1].
Proof.
  apply (GetAll_sorted fts_none "" (Some ["pop"]) newest_first db_two _ _ _ c_id db_two_listing);
    [reflexivity|discriminate].
Defined.

Lemma GetAll_next_page_witness :
  NoDup (Id <$> ([songA_v1] ++ [songB_v1])).
Proof.
  assert (H1 : GetAll fts_none "" (Some []) (page_of_one 1 "id") db_two =
               (Ok ([songA_v1], mkMetadata 1 1 1 2 2), (submit StSelectAll db_two).2))
    by (vm_compute; reflexivity).
  assert (H2 : GetAll fts_none "" (Some []) (page_of_one 2 "id") (submit StSelectAll db_two).2 =
               (Ok ([songB_v1], mkMetadata 2 1 1 2 2),
                (submit StSelectAll (submit StSelectAll db_two).2).2))
    by (vm_compute; reflexivity).
  destruct (GetAll_next_page fts_none "" (Some []) (page_of_one 1 "id") (page_of_one 2 "id")
              db_two _ (submit StSelectAll db_two).2 _ _ _ _ _
              eq_refl eq_refl eq_refl eq_refl ltac:(cbn; lia) H1 H2) as [H _].
  exact H.
Defined.

(** ** Errors *)

(** X18: a write that returns an error has written nothing.  When [Update]
    or [Delete] returns an error, whichever it is, the table is as it was,
    and the record handed to [Update] is as it was too. *)
Theorem failed_write_changes_nothing (db : DB) :
  (forall ms e,
     (Update ms db).1.1 = Some e ->
     musics (Update ms db).2 = musics db /\ (Update ms db).1.2 = ms) /\
  (forall id e,
     (Delete id db).1 = Some e -> musics (Delete id db).2 = musics db).
Proof.
  split.
  - intros ms e. rewrite Update_unfold.
    destruct (pending_fault db); [done|].
    destruct (musics db !! Id ms); [|done].
    destruct (negb _); [done|]. by destruct (table_takes ms).
  - intros id e. destruct (Z.lt_ge_cases id 1) as [Hlt|Hge].
    + by rewrite Delete_below_1.
    + rewrite Delete_from_1 by done.
      destruct (pending_fault db); [done|]. by destruct (musics db !! id).
Qed.

Lemma failed_write_changes_nothing_witness :
  musics (Update songA_negative db1).2 = musics db1 /\
  musics (Delete 7 db1).2 = musics db1.
Proof.
  destruct (failed_write_changes_nothing db1) as [Hu Hd].
  split.
  - by eapply Hu.
  - by eapply Hd.
Defined.

(** ** The list handler on a working backend *)



Section HealthyListing.

Variable fts_match : string -> string -> bool.



End HealthyListing.



(** ** The rows that the handlers leave *)

Lemma validated_row_valid m created version :
  Valid (ValidateMovie New m) = true ->
  row_valid (mkRow (Title m) (Duration m) (Some <$> default [] (Genres m))
                   (to_numeric (Popularity m)) created version).
Proof.
  intros Hv. apply ValidateMovie_rules in Hv
    as ([Ht1 Ht2] & [_ Hd] & [_ Hp] & (Hn & [Hl1 Hl5] & Hnd)).
  unfold row_valid. cbn [col_title col_duration col_popularity col_genres].
  rewrite (to_numeric_above_zero _ Hp).
  repeat split; try done.
  exists (default [] (Genres m)). split; [done|]. unfold len in *. split; [lia|done].
Qed.

Lemma handler_state {A B} (x : option error * A * DB) (f : error -> B) (g : A -> B) :
  (let '(err, a, d) := x in
   match err with
   | Some e => (f e, d)
   | None => (g a, d)
   end).2 = x.2.
Proof. by destruct x as [[[e|] a] d]. Qed.

Lemma Insert_valid mv db :
  Valid (ValidateMovie New mv) = true -> table_valid db -> table_valid (Insert mv db).2.
Proof.
  intros Hv Hall.
  destruct (Insert_cases mv db) as [(msg & db' & Hi & Hm & _)|(db' & Hi & _ & _ & _ & _ & Hm & _)];
    rewrite Hi; unfold table_valid; cbn [snd]; rewrite Hm; [exact Hall|].
  apply map_Forall_insert_2; [|exact Hall]. by apply validated_row_valid.
Qed.

Lemma Update_valid ms db :
  Valid (ValidateMovie New ms) = true -> table_valid db -> table_valid (Update ms db).2.
Proof.
  intros Hv Hall. unfold table_valid.
  destruct (Update_table ms db) as [->|(r & _ & _ & ->)]; [exact Hall|].
  apply map_Forall_insert_2; [|exact Hall]. by apply validated_row_valid.
Qed.

(** X20: through the handlers that write, the table only ever holds tracks
    that keep the rules: when every row keeps them, every row still does
    after [createMusicHandler], [updateMusicHandler] or
    [deleteMusicHandler], whatever the request and the answer. *)
Theorem handlers_keep_rows_valid (db : DB) :
  table_valid db ->
  (forall body, table_valid (createMusicHandler body db).2) /\
  (forall idParam body, table_valid (updateMusicHandler idParam body db).2) /\
  (forall idParam, table_valid (deleteMusicHandler idParam db).2).
Proof.
  intros Hall. split; [|split].
  - intros [input|]; [|exact Hall]. unfold createMusicHandler.
    destruct (Valid _) eqn:Hv; cbn [negb]; [|exact Hall].
    rewrite handler_state. by apply Insert_valid.
  - intros [id|] body; [|exact Hall]. unfold updateMusicHandler.
    assert (Hg : table_valid (Get id db).2).
    { by destruct (Get_state id db) as [->| ->]. }
    destruct (Get id db) as [[music|e] db1]; cbn [snd] in Hg.
    2:{ by destruct e. }
    destruct body as [input|]; [|exact Hg].
    destruct (Valid _) eqn:Hv; cbn [negb]; [|exact Hg].
    rewrite handler_state. by apply Update_valid.
  - intros [id|]; [|exact Hall]. unfold deleteMusicHandler.
    assert (Hd : table_valid (Delete id db).2).
    { unfold table_valid. destruct (Z.lt_ge_cases id 1) as [Hlt|Hge].
      - by rewrite Delete_below_1.
      - rewrite Delete_from_1 by done.
        destruct (pending_fault db); [exact Hall|].
        destruct (musics db !! id); [|exact Hall].
        by apply map_Forall_delete. }
    destruct (Delete id db) as [[e|] db1]; [|exact Hd]. by destruct e.
Qed.

Lemma handlers_keep_rows_valid_witness :
  table_valid (createMusicHandler (Some create_songA) db0).2 /\
  table_valid (updateMusicHandler (Some 1) (Some retitle_songA) db1).2.
Proof.
  assert (H0 : table_valid db0) by apply map_Forall_empty.
  assert (H1 : table_valid db1) by (apply Insert_valid; [by vm_compute|exact H0]).
  destruct (handlers_keep_rows_valid db0 H0) as (Hc & _).
  destruct (handlers_keep_rows_valid db1 H1) as (_ & Hu & _).
  split; [apply Hc|apply Hu].
Defined.
